(** * OinkTrack [make_dataset.py]: a shallow embedding and its properties

    The script turns raw recordings and Supervisely annotations into a
    MOT-style dataset.  Each section below embeds one group of functions of
    [make_dataset.py] and is followed, at the end of the file, by the
    properties established for it. *)

From Stdlib Require Import ZArith Lia List String Ascii SpecFloat.
From stdpp Require Import base option list sorting gmap strings pretty.

Local Open Scope Z_scope.

(** ** Python values, exceptions and numbers *)

Module Py.

(** The exceptions the script can raise or let escape. *)
Inductive exn :=
| ValueError
| OverflowError
| KeyError
| TypeError
| AttributeError
| FileNotFoundError
| NotADirectoryError
| IsADirectoryError
| JSONDecodeError
| FileExistsError
| CalledProcessError
| RuntimeError (msg : string)
| SystemExit (msg : string).

Inductive res (A : Type) :=
| Ok (a : A)
| Raise (e : exn).
Arguments Ok {A} a.
Arguments Raise {A} e.

#[global] Instance res_ret : MRet res := λ A a, Ok a.

#[global] Instance res_bind : MBind res := λ A B k r,
  match r with
  | Ok a => k a
  | Raise e => Raise e
  end.

(** A JSON number as [json.loads] returns it: an [int] of arbitrary size or
    a binary64 [float] (the literals [NaN] and [Infinity] are accepted by
    the decoder). *)
Inductive num :=
| PyInt (z : Z)
| PyFloat (f : spec_float).

Definition prec64 : Z := 53.
Definition emax64 : Z := 1024.

(** [int] to [float] conversion, as the mixed arithmetic performs it: the
    nearest binary64 value (ties to even), [OverflowError] when the integer
    is too large. *)
Definition float_of_int (z : Z) : res spec_float :=
  match binary_normalize prec64 emax64 z 0 false with
  | S754_infinity _ => Raise OverflowError
  | f => Ok f
  end.

(** Exact comparisons between an [int] and a [float]. *)
Definition int_lt_float (z : Z) (f : spec_float) : bool :=
  match f with
  | S754_nan => false
  | S754_infinity s => negb s
  | S754_zero _ => z <? 0
  | S754_finite s m e =>
      let v := cond_Zopp s (Zpos m) in
      if 0 <=? e then z <? v * 2 ^ e else z * 2 ^ (- e) <? v
  end.

Definition float_lt_int (f : spec_float) (z : Z) : bool :=
  match f with
  | S754_nan => false
  | S754_infinity s => s
  | S754_zero _ => 0 <? z
  | S754_finite s m e =>
      let v := cond_Zopp s (Zpos m) in
      if 0 <=? e then v * 2 ^ e <? z else v <? z * 2 ^ (- e)
  end.

(** [a < b] *)
Definition py_lt (a b : num) : bool :=
  match a, b with
  | PyInt x, PyInt y => x <? y
  | PyFloat x, PyFloat y => SFltb x y
  | PyInt x, PyFloat y => int_lt_float x y
  | PyFloat x, PyInt y => float_lt_int x y
  end.

(** [min(a, b)]: the first argument is kept unless the second is strictly
    smaller. *)
Definition py_min (a b : num) : num :=
  if py_lt b a then b else a.

(** [a - b] *)
Definition py_sub (a b : num) : res num :=
  match a, b with
  | PyInt x, PyInt y => Ok (PyInt (x - y))
  | PyFloat x, PyFloat y => Ok (PyFloat (SFsub prec64 emax64 x y))
  | PyInt x, PyFloat y =>
      x' ← float_of_int x ;
      Ok (PyFloat (SFsub prec64 emax64 x' y))
  | PyFloat x, PyInt y =>
      y' ← float_of_int y ;
      Ok (PyFloat (SFsub prec64 emax64 x y'))
  end.

(** [abs(a)] *)
Definition py_abs (a : num) : num :=
  match a with
  | PyInt x => PyInt (Z.abs x)
  | PyFloat x => PyFloat (SFabs x)
  end.

(** The integer nearest to [m * 2^e], ties to the even one. *)
Definition round_half_even (m : positive) (e : Z) : Z :=
  if 0 <=? e then Zpos m * 2 ^ e
  else
    let d := 2 ^ (- e) in
    let q := Zpos m / d in
    let r := Zpos m mod d in
    match 2 * r ?= d with
    | Lt => q
    | Gt => q + 1
    | Eq => if Z.even q then q else q + 1
    end.

(** [int(round(a))]: an [int] is its own rounding; a [float] is rounded to
    the nearest integer, ties to even; [round] raises on NaN and on the
    infinities. *)
Definition py_int_round (a : num) : res Z :=
  match a with
  | PyInt x => Ok x
  | PyFloat S754_nan => Raise ValueError
  | PyFloat (S754_infinity _) => Raise OverflowError
  | PyFloat (S754_zero _) => Ok 0
  | PyFloat (S754_finite s m e) => Ok (cond_Zopp s (round_half_even m e))
  end.

End Py.

(** ** The annotation converter: [sup_to_mot] *)

Module SupToMot.
Import Py.

(** The part of a Supervisely document the converter reads, as the
    converter comes to read it.

    The comprehension that collects the object ids reads [data["frames"]],
    every [fr["figures"]] and every [fig["objectId"]] before [gt.txt] is
    opened: a document is the list of its frame records, a record has the
    list of its figures, and a figure has its object id.

    The two loops read [fr["index"]] and
    [fig["geometry"]["points"]["exterior"]] later, once [gt.txt] is open,
    record by record and figure by figure.  Such a field is kept as what
    reading it gives at that point:
    - [exterior fig] is the list of points, each a list of numbers, when
      the field holds one (of any lengths: the unpacking checks them), and
      otherwise the exception that the statements from the unpacking to
      the differences raise on the figure: [KeyError] when [geometry],
      [points] or [exterior] is missing, [TypeError] or [ValueError] when
      one of them holds a value that is not of that form;
    - [index fr] is the integer of the field when it holds one, and
      otherwise the exception that [fr["index"] + 1] raises: [KeyError]
      when the field is missing, [TypeError] when it holds a value that is
      not a number.

    Object ids and indices are integers, as Supervisely writes them; a
    document with other object ids or with a fractional index is not
    described. *)
Record figure := RawFigure {
  objectId : Z;
  exterior : res (list (list num));
}.

Record frame := RawFrame {
  index : res Z;
  figures : list figure;
}.

(** A figure whose box is there, and a frame record whose index is. *)
Definition Figure (oid : Z) (ext : list (list num)) : figure :=
  RawFigure oid (Ok ext).

Definition Frame (i : Z) (figs : list figure) : frame :=
  RawFrame (Ok i) figs.

(** One line of [gt.txt]; the nine comma-separated fields. *)
Record row := Row {
  r_frame : Z;
  r_id : Z;
  r_left : Z;
  r_top : Z;
  r_width : Z;
  r_height : Z;
  r_conf : Z;
  r_class : Z;
  r_vis : Z;
}.

Definition mot_line (r : row) : string :=
  pretty (r_frame r) +:+ "," +:+ pretty (r_id r) +:+ "," +:+
  pretty (r_left r) +:+ "," +:+ pretty (r_top r) +:+ "," +:+
  pretty (r_width r) +:+ "," +:+ pretty (r_height r) +:+ "," +:+
  pretty (r_conf r) +:+ "," +:+ pretty (r_class r) +:+ "," +:+
  pretty (r_vis r) +:+ String "010" "".

(** [{fig["objectId"] for fr in data["frames"] for fig in fr["figures"]}] *)
Definition object_id_set (data : list frame) : gset Z :=
  list_to_set (data ≫= λ fr, objectId <$> figures fr).

(** [sorted(...)] of that set. *)
Definition object_ids (data : list frame) : list Z :=
  merge_sort Z.le (elements (object_id_set data)).

(** [{oid: i + 1 for i, oid in enumerate(object_ids)}]: the entries are
    stored one after the other, a later one replacing an earlier one with
    the same key. *)
Definition enumerate {A} (l : list A) : list (nat * A) :=
  imap (λ i x, (i, x)) l.

Definition dict_of_ids (ids : list Z) : gmap Z Z :=
  foldl (λ m '(i, oid), <[oid := Z.of_nat i + 1]> m) ∅ (enumerate ids).

(** The same comprehension, counting from [k] and storing into [m]
    ([dict_of_ids ids] is [dict_from 0 ids ∅]); used to reason about it. *)
Definition dict_from (k : nat) (ids : list Z) (m : gmap Z Z) : gmap Z Z :=
  foldl (λ m '(i, oid), <[oid := Z.of_nat i + 1]> m) m
        (imap (λ i x, (k + i, x)%nat) ids).

Definition id_map (data : list frame) : gmap Z Z :=
  dict_of_ids (object_ids data).

(** [(x1, y1), (x2, y2) = fig["geometry"]["points"]["exterior"]]: the
    unpacking raises [ValueError] unless there are exactly two points of
    exactly two coordinates. *)
Definition unpack_corners (ext : list (list num))
  : res ((num * num) * (num * num)) :=
  match ext with
  | [p1; p2] =>
      match p1 with
      | [x1; y1] =>
          match p2 with
          | [x2; y2] => Ok ((x1, y1), (x2, y2))
          | _ => Raise ValueError
          end
      | _ => Raise ValueError
      end
  | _ => Raise ValueError
  end.

(** [id_map[oid]] *)
Definition dict_get (m : gmap Z Z) (oid : Z) : res Z :=
  match m !! oid with
  | Some d => Ok d
  | None => Raise KeyError
  end.

(** The body of the inner loop: the row written for one figure. *)
Definition figure_row (idm : gmap Z Z) (fidx : Z) (fig : figure) : res row :=
  ext ← exterior fig;
  '((x1, y1), (x2, y2)) ← unpack_corners ext;
  let x := py_min x1 x2 in
  let y := py_min y1 y2 in
  dx ← py_sub x2 x1;
  dy ← py_sub y2 y1;
  let w := py_abs dx in
  let h := py_abs dy in
  d ← dict_get idm (objectId fig);
  xi ← py_int_round x;
  yi ← py_int_round y;
  wi ← py_int_round w;
  hi ← py_int_round h;
  Ok (Row fidx d xi yi wi hi 1 1 1).

(** The two loops.  [out] is what has been written to the file so far; an
    exception leaves the rows already written in place. *)
Fixpoint emit_figures (idm : gmap Z Z) (fidx : Z) (figs : list figure)
    (out : list row) : list row * option exn :=
  match figs with
  | [] => (out, None)
  | fig :: rest =>
      match figure_row idm fidx fig with
      | Ok r => emit_figures idm fidx rest (out ++ [r])
      | Raise e => (out, Some e)
      end
  end.

Fixpoint emit_frames (idm : gmap Z Z) (frames : list frame)
    (out : list row) : list row * option exn :=
  match frames with
  | [] => (out, None)
  | fr :: rest =>
      match index fr with
      | Raise e => (out, Some e)
      | Ok i =>
          match emit_figures idm (i + 1) (figures fr) out with
          | (out', None) => emit_frames idm rest out'
          | (out', Some e) => (out', Some e)
          end
      end
  end.

(** The converter on a decoded document: the rows it writes, and the
    exception that ended it, if any. *)
Definition sup_to_mot_rows (data : list frame) : list row * option exn :=
  let idm := id_map data in
  emit_frames idm data [].

(** The text of [gt.txt]. *)
Definition gt_text (rows : list row) : string :=
  foldr (λ r acc, mot_line r +:+ acc) "" rows.

(** *** Notions used to state the properties of the converter *)

(** The figures of a document in the order the two loops visit them, each
    with its frame record. *)
Definition doc_figures (data : list frame) : list (frame * figure) :=
  data ≫= λ fr, (λ fig, (fr, fig)) <$> figures fr.

(** [r] is the row of figure [fig] of frame record [fr]: the record has
    an index, the loop body produced the row, its frame field is the
    record's index plus one, its id is the figure's entry of the identity
    map, and it ends in [1,1,1]. *)
Definition row_of_figure (idm : gmap Z Z) (p : frame * figure) (r : row)
  : Prop :=
  ∃ i, index p.1 = Ok i ∧
       figure_row idm (i + 1) p.2 = Ok r ∧
       r_frame r = i + 1 ∧
       idm !! objectId p.2 = Some (r_id r) ∧
       r_conf r = 1 ∧ r_class r = 1 ∧ r_vis r = 1.

(** The loops end with exception [e] after [n] rows: at the figure at
    position [n] of the document, whose row cannot be computed, or at a
    frame record whose index cannot be read, the records before it holding
    [n] figures. *)
Definition stops_at (idm : gmap Z Z) (data : list frame) (n : nat) (e : exn)
  : Prop :=
  (∃ fr fig i, doc_figures data !! n = Some (fr, fig) ∧
               index fr = Ok i ∧ figure_row idm (i + 1) fig = Raise e) ∨
  (∃ k fr, data !! k = Some fr ∧ index fr = Raise e ∧
           n = length (doc_figures (take k data))).

(** A figure whose box is given by two corner points with integer
    coordinates, and a frame record with an integer index. *)
Definition int_box (fig : figure) : bool :=
  match exterior fig with
  | Ok [[PyInt _; PyInt _]; [PyInt _; PyInt _]] => true
  | _ => false
  end.

Definition int_index (fr : frame) : bool :=
  match index fr with
  | Ok _ => true
  | Raise _ => false
  end.

End SupToMot.

(** ** Arrays: what [numpy] and [cv2] compute on images *)

Module Img.
Import Py.

(** A single-channel image of shape [(H, W)] and a colour image of shape
    [(H, W, 3)], as nested lists of [uint8] values. *)
Abbreviation gray := (list (list Z)).
Abbreviation color := (list (list (list Z))).

(** [a.shape[:2]] *)
Definition shape2 {A} (a : list (list A)) : nat * nat :=
  (length a, length (hd [] a)).

(** [(mask > 0).astype(np.uint8)] *)
Definition binarize (mask : gray) : gray :=
  map (map (λ v, if 0 <? v then 1 else 0)) mask.

(** A value of a binarised mask. *)
Definition binary (v : Z) : Prop := v = 0 ∨ v = 1.

(** The product of two [uint8] values, which wraps around. *)
Definition u8_mul (p m : Z) : Z := (p * m) mod 256.

(** One axis of [numpy] broadcasting: equal lengths are combined
    elementwise, a length of one is stretched, other lengths do not
    broadcast ([ValueError]). *)
Definition broadcast {A B C} (f : A → B → res C) (xs : list A) (ys : list B)
  : res (list C) :=
  if decide (length xs = length ys) then
    mapM (λ p, f p.1 p.2) (zip xs ys)
  else
    match xs, ys with
    | [x], _ => mapM (f x) ys
    | _, [y] => mapM (λ x, f x y) xs
    | _, _ => Raise ValueError
    end.

(** [img * m[..., None]] *)
Definition mul_mask (img : color) (m : gray) : res color :=
  broadcast
    (λ irow mrow,
       broadcast (λ px mv, Ok (map (λ c, u8_mul c mv) px)) irow mrow)
    img m.

(** The interpolation flags of [cv2]. *)
Definition INTER_NEAREST : Z := 0.
Definition INTER_LINEAR : Z := 1.

(** A Python value passed to [cv2.resize] in the position of [dst]. *)
Inductive pyarg :=
| ArgInt (z : Z)
| ArgArray (a : gray).

End Img.

(** ** Paths and the file system *)

Module Fs.
Import Py.

(** A [pathlib] path, as its [parts]: an absolute path starts with the
    part ["/"]. *)
Abbreviation path := (list string).

(** [p.is_absolute()] *)
Definition is_absolute (p : path) : bool := bool_decide (head p = Some "/").

(** [str(p)], which is also [p.as_posix()] *)
Definition path_str (p : path) : string :=
  if is_absolute p then "/" +:+ String.concat "/" (tail p)
  else if decide (p = []) then "."
  else String.concat "/" p.

(** [p.name] *)
Definition p_name (p : path) : string :=
  if decide (p = ["/"]) then "" else List.last p "".

(** [p.parent] *)
Definition p_parent (p : path) : path :=
  if decide (p = ["/"]) then p else removelast p.

(** [p / n] for a single component [n] *)
Definition p_child (p : path) (n : string) : path := p ++ [n].

(** The position of the last ["."] of a name, counted from its end. *)
Fixpoint find_dot (r : string) : option nat :=
  match r with
  | EmptyString => None
  | String c r' => if Ascii.eqb c "." then Some 0%nat else S <$> find_dot r'
  end.

(** The split of a name before its suffix: with [i = name.rfind(".")], the
    suffix is [name[i:]] when [0 < i < len(name) - 1] and is empty
    otherwise. *)
Definition split_suffix (name : string) : string * string :=
  let len := String.length name in
  match find_dot (String.rev name) with
  | Some j =>
      let i := (len - 1 - j)%nat in
      if bool_decide (0 < i < len - 1)%nat
      then (String.substring 0 i name, String.substring i (len - i) name)
      else (name, "")
  | None => (name, "")
  end.

(** [p.stem] *)
Definition p_stem (p : path) : string := (split_suffix (p_name p)).1.

(** [p.with_suffix(suffix)]; a path without a name has none to change. *)
Definition with_suffix (p : path) (suffix : string) : res path :=
  if decide (p_name p = "") then Raise ValueError
  else Ok (p_child (p_parent p) (p_stem p +:+ suffix)).

(** Whether a name matches the pattern ["*" + suffix]. *)
Definition ends_with (suffix name : string) : bool :=
  String.prefix (String.rev suffix) (String.rev name).

(** The order of paths: that of their lists of parts, the parts compared
    as strings. *)
Fixpoint parts_leb (p q : path) : bool :=
  match p, q with
  | [], _ => true
  | _ :: _, [] => false
  | a :: p', b :: q' =>
      if decide (a = b) then parts_leb p' q' else bool_decide (a ≤ b)%string
  end.

Definition path_le (p q : path) : Prop := parts_leb p q.

(** [sorted(...)] of paths.  The order is total and antisymmetric, so the
    result of any sorting algorithm is the same. *)
Definition sorted_paths (l : list path) : list path := merge_sort path_le l.

(** [q] without its leading [k], when [q] starts with [k]. *)
Fixpoint strip_prefix (k q : path) : option path :=
  match k, q with
  | [], _ => Some q
  | a :: k', b :: q' => if decide (a = b) then strip_prefix k' q' else None
  | _ :: _, [] => None
  end.

(** A file system: every existing absolute path with what is there. *)
Inductive entry :=
| FileE (data : string)
| DirE.

#[global] Instance entry_eq_dec : EqDecision entry.
Proof. solve_decision. Defined.

Section fs.
Context (fs : gmap path entry).

Definition fs_exists (k : path) : bool := bool_decide (is_Some (fs !! k)).

Definition fs_is_dir (k : path) : bool := bool_decide (fs !! k = Some DirE).

(** The name under which [q] is an entry of the directory [k], if it is. *)
Definition child_of (k q : path) : option string :=
  match reverse q with
  | n :: rk => if decide (reverse rk = k) then Some n else None
  | [] => None
  end.

(** The names of the entries of [k], in no meaningful order. *)
Definition child_names (k : path) : list string :=
  omap (child_of k) (map_to_list fs).*1.

(** Whether [q] lies below the directory [k], every path between the two
    (and [k] itself) being a directory, and has a name that ends in
    [suffix]. *)
Definition below_matching (suffix : string) (k q : path) : bool :=
  match strip_prefix k q with
  | Some (n :: rest) =>
      ends_with suffix (List.last (n :: rest) "") &&
      forallb (λ i, fs_is_dir (k ++ take i (n :: rest)))
              (seq 0 (length (n :: rest)))
  | _ => false
  end.

(** [any(k.rglob("*" + suffix))] *)
Definition rglob_any (suffix : string) (k : path) : bool :=
  existsb (below_matching suffix k) (map_to_list fs).*1.

(** [open(k, "w")] followed by the writes and the close. *)
Definition write_file (k : path) (data : string) : res (gmap path entry) :=
  match fs !! k with
  | Some DirE => Raise IsADirectoryError
  | _ =>
      match fs !! p_parent k with
      | Some DirE => Ok (<[k := FileE data]> fs)
      | Some (FileE _) => Raise NotADirectoryError
      | None => Raise FileNotFoundError
      end
  end.

(** [k.read_text()] before decoding *)
Definition read_file (k : path) : res string :=
  match fs !! k with
  | Some (FileE data) => Ok data
  | Some DirE => Raise IsADirectoryError
  | None => Raise FileNotFoundError
  end.

(** [k.mkdir(exist_ok=True)] *)
Definition mkdir (k : path) : res (gmap path entry) :=
  match fs !! k with
  | Some DirE => Ok fs
  | Some (FileE _) => Raise FileExistsError
  | None =>
      match fs !! p_parent k with
      | Some DirE => Ok (<[k := DirE]> fs)
      | Some (FileE _) => Raise NotADirectoryError
      | None => Raise FileNotFoundError
      end
  end.

(** [k.unlink(missing_ok=True)] *)
Definition unlink (k : path) : res (gmap path entry) :=
  match fs !! k with
  | None => Ok fs
  | Some (FileE _) => Ok (delete k fs)
  | Some DirE => Raise IsADirectoryError
  end.

(** The removal of a directory with everything below it. *)
Definition rmtree (k : path) : gmap path entry :=
  filter (λ kv, ¬ k `prefix_of` kv.1) fs.

End fs.

(** [k.mkdir(parents=True, exist_ok=True)]: the directories along [k] are
    created from the top; [done] is the part of the path already there. *)
Fixpoint mkdirs (done : path) (todo : list string) (fs : gmap path entry)
  : res (gmap path entry) :=
  match todo with
  | [] => Ok fs
  | n :: rest =>
      let k := done ++ [n] in
      match fs !! k with
      | Some DirE => mkdirs k rest fs
      | Some (FileE _) =>
          Raise (if rest is [] then FileExistsError else NotADirectoryError)
      | None => mkdirs k rest (<[k := DirE]> fs)
      end
  end.

Definition mkdir_p (k : path) (fs : gmap path entry) : res (gmap path entry) :=
  mkdirs [] k fs.

End Fs.

(** ** The script on a host *)

Module Script.
Import Py SupToMot Img Fs.

(** What the script takes from its environment: the working directory
    (an absolute path), the order in which the operating system lists the
    entries of a directory (a rearrangement of the names it is given),
    whether [ffmpeg] is on the search path, the [ffmpeg] program (its
    effect on the file system and whether it exits with status zero), the
    temporary directory [tempfile] picks, the image codecs and the
    resampling of [cv2] ([cv::resize] with its source, size and
    interpolation flag), and the JSON decoder.  The decoder stands for
    [json.loads] and for the reads of the comprehension that follows it
    ([data["frames"]], [fr["figures"]], [fig["objectId"]]), all of which
    come before [gt.txt] is opened; the fields read inside the loops are
    part of its result, to be read there. *)
Class Host := {
  cwd : path;
  scandir_order : path → list string → list string;
  which_ffmpeg : bool;
  ffmpeg : list string → gmap path entry → gmap path entry * bool;
  mkdtemp : gmap path entry → path;
  imdecode_color : string → option color;
  imdecode_gray : string → option gray;
  imencode_jpg : color → string;
  resize_impl : gray → nat * nat → Z → gray;
  json_loads : string → res (list frame);
}.

(** The state the script acts on: the file system and what was printed. *)
Record world := World {
  w_fs : gmap path entry;
  w_out : list string;
}.

(** A computation that may change the world and may raise; what was done
    before an exception stays done. *)
Definition M (A : Type) : Type := world → res A * world.

#[global] Instance M_ret : MRet M := λ A a w, (Ok a, w).

#[global] Instance M_bind : MBind M := λ A B k m w,
  match m w with
  | (Ok a, w') => k a w'
  | (Raise e, w') => (Raise e, w')
  end.

Definition raise {A} (e : exn) : M A := λ w, (Raise e, w).

Definition lift_res {A} (r : res A) : M A := λ w, (r, w).

Definition get_fs : M (gmap path entry) := λ w, (Ok (w_fs w), w).

Definition set_fs (fs : gmap path entry) : M unit :=
  λ w, (Ok (), World fs (w_out w)).

(** [print(s)] *)
Definition print (s : string) : M unit :=
  λ w, (Ok (), World (w_fs w) (w_out w ++ [s])).

(** [for x in l: body(x)] *)
Fixpoint for_each {A} (l : list A) (body : A → M unit) : M unit :=
  match l with
  | [] => mret ()
  | x :: rest => body x ≫= λ _, for_each rest body
  end.

(** [[body(x) for x in l]], with the effects of [body] in order. *)
Fixpoint collect {A B} (l : list A) (body : A → M B) : M (list B) :=
  match l with
  | [] => mret []
  | x :: rest =>
      y ← body x;
      ys ← collect rest body;
      mret (y :: ys)
  end.

Section script.
Context {host : Host}.

(** ** 1) The split *)

Definition SPLIT : list (string * list string) :=
  [("train", ["C1D-1"; "C1D-3"; "C1N-1"; "C1N-3"; "C2D-2"; "C2N-2"; "C2ND-1"]);
   ("val", ["C1ND-1"; "C2N-3"]);
   ("test", ["C2D-1"; "C1DN-1"; "C1D-2"; "C1N-2"; "C2N-1"; "C2N-4"; "C2DN-1"])].

(** [SPLIT[name]] *)
Definition split_of (name : string) : list string :=
  default [] ((λ r, r.2.2) <$> list_find (λ kv, kv.1 = name) SPLIT).

(** ** 2) Directory layout *)

(** [Path("OinkTrack").resolve()] *)
Definition ROOT : path := cwd ++ ["OinkTrack"].
Definition OUT_DIR : path := ["dataset"].
Definition MASK_DIR : path := p_child ROOT "masks".

(** Where the file system finds a path: a relative one is taken from the
    working directory. *)
Definition resolve (p : path) : path :=
  if is_absolute p then p else cwd ++ p.

(** ** File system primitives of [pathlib] and [cv2] *)

Definition lift_fs (f : gmap path entry → res (gmap path entry)) : M unit :=
  fs ← get_fs;
  fs' ← lift_res (f fs);
  set_fs fs'.

(** [p.exists()] and [p.is_dir()] *)
Definition path_exists (fs : gmap path entry) (p : path) : bool :=
  fs_exists fs (resolve p).

Definition path_is_dir (fs : gmap path entry) (p : path) : bool :=
  fs_is_dir fs (resolve p).

(** The entries of the directory [p] as the operating system lists them. *)
Definition scandir (fs : gmap path entry) (p : path) : list path :=
  p_child p <$> scandir_order (resolve p) (child_names fs (resolve p)).

(** [list(p.iterdir())] *)
Definition iterdir (fs : gmap path entry) (p : path) : res (list path) :=
  match fs !! resolve p with
  | Some DirE => Ok (scandir fs p)
  | Some (FileE _) => Raise NotADirectoryError
  | None => Raise FileNotFoundError
  end.

(** [list(p.glob("*" + suffix))]: nothing when [p] is not a directory. *)
Definition glob (fs : gmap path entry) (p : path) (suffix : string)
  : list path :=
  if path_is_dir fs p
  then filter (λ q, ends_with suffix (p_name q) = true) (scandir fs p)
  else [].

(** [any(p.rglob("*" + suffix))] *)
Definition rglob_nonempty (fs : gmap path entry) (p : path) (suffix : string)
  : bool :=
  rglob_any fs suffix (resolve p).

(** [cv2.imread(str(p))] and [cv2.imread(str(p), cv2.IMREAD_GRAYSCALE)]:
    [None] when there is no file or it does not decode. *)
Definition imread (fs : gmap path entry) (p : path) : option color :=
  match fs !! resolve p with
  | Some (FileE data) => imdecode_color data
  | _ => None
  end.

Definition imread_gray (fs : gmap path entry) (p : path) : option gray :=
  match fs !! resolve p with
  | Some (FileE data) => imdecode_gray data
  | _ => None
  end.

(** [cv2.imwrite(str(p), img)] for a [.jpg] path: a file that cannot be
    opened is reported by the return value, which the script ignores. *)
Definition imwrite (p : path) (img : color) : M unit :=
  fs ← get_fs;
  match write_file fs (resolve p) (imencode_jpg img) with
  | Ok fs' => set_fs fs'
  | Raise _ => mret ()
  end.

(** [cv2.resize(src, dsize[, dst[, fx[, fy[, interpolation]]]])]: the
    third positional parameter is the output array [dst], which is not
    read; [fx] and [fy] are left at zero by the script, so the size is
    [dsize]; the interpolation is [INTER_LINEAR] unless it is given. *)
Definition cv2_resize (src : gray) (dsize : nat * nat)
    (dst : option pyarg) (fx fy : option Z) (interpolation : option Z)
  : gray :=
  resize_impl src dsize (default INTER_LINEAR interpolation).

(** [p.write_text(s)], and [with p.open("w") as f: f.write(s)] *)
Definition write_text (p : path) (s : string) : M unit :=
  lift_fs (λ fs, write_file fs (resolve p) s).

(** ** 3) Small helper routines *)

(** [subprocess.run(cmd, check=True)] for an [ffmpeg] command line *)
Definition _run (cmd : list string) : M unit :=
  if which_ffmpeg then
    λ w,
      let '(fs', ok) := ffmpeg cmd (w_fs w) in
      (if ok then Ok () else Raise CalledProcessError, World fs' (w_out w))
  else raise FileNotFoundError.

Definition ts_to_mp4 (ts_path mp4_path : path) : M unit :=
  _run ["ffmpeg"; "-y"; "-loglevel"; "error"; "-i"; path_str ts_path;
        "-c"; "copy"; path_str mp4_path].

Definition concat_list_text (mp4_paths : list path) : string :=
  foldr (λ p acc, "file '" +:+ path_str p +:+ "'" +:+ String "010" "" +:+ acc)
        "" mp4_paths.

Definition concat_mp4s (mp4_paths : list path) (output_path : path) : M unit :=
  lst_file ← lift_res (with_suffix output_path ".txt");
  write_text lst_file (concat_list_text mp4_paths);;
  _run ["ffmpeg"; "-y"; "-loglevel"; "error"; "-f"; "concat"; "-safe"; "0";
        "-i"; path_str lst_file; "-c"; "copy"; path_str output_path];;
  lift_fs (λ fs, unlink fs (resolve lst_file)).

Definition downsample_to_1fps (src dst : path) : M unit :=
  _run ["ffmpeg"; "-y"; "-loglevel"; "error"; "-i"; path_str src;
        "-vf"; "fps=1"; path_str dst].

Definition extract_frames (video dst_dir : path) : M unit :=
  lift_fs (mkdir_p (resolve dst_dir));;
  _run ["ffmpeg"; "-y"; "-loglevel"; "error"; "-i"; path_str video;
        "-vf"; "fps=1"; "-start_number"; "1";
        path_str (p_child dst_dir "%08d.jpg")].

(** The mask used for one frame. *)
Definition frame_mask (mask : gray) (img : color) : gray :=
  if decide (shape2 img ≠ shape2 mask)
  then cv2_resize mask ((shape2 img).2, (shape2 img).1)
                  (Some (ArgInt INTER_NEAREST)) None None None
  else mask.

(** The body of the loop of [apply_mask]. *)
Definition mask_frame (mask : gray) (jpg : path) : M unit :=
  fs ← get_fs;
  match imread fs jpg with
  | None => mret ()
  | Some img =>
      let m := frame_mask mask img in
      masked ← lift_res (mul_mask img m);
      imwrite jpg masked
  end.

Definition apply_mask (img_dir mask_path : path) : M unit :=
  fs ← get_fs;
  match imread_gray fs mask_path with
  | None => print ("⚠️  Mask not found: " +:+ path_str mask_path)
  | Some mask =>
      let mask := binarize mask in
      fs ← get_fs;
      for_each (sorted_paths (glob fs img_dir ".jpg")) (mask_frame mask)
  end.

(** [sup_to_mot]: the file is opened before the first row and closed
    with the rows written so far when an exception ends the loops. *)
Definition sup_to_mot (json_path txt_out : path) : M unit :=
  fs ← get_fs;
  text ← lift_res (read_file fs (resolve json_path));
  data ← lift_res (json_loads text);
  let '(rows, err) := sup_to_mot_rows data in
  write_text txt_out (gt_text rows);;
  match err with
  | None => mret ()
  | Some e => raise e
  end.

Definition seqinfo_text (name : string) (n height width : nat) : string :=
  let nl := String "010" "" in
  "[Sequence]" +:+ nl +:+
  "name=" +:+ name +:+ nl +:+
  "imDir=img1" +:+ nl +:+
  "frameRate=1" +:+ nl +:+
  "seqLength=" +:+ pretty n +:+ nl +:+
  "imWidth=" +:+ pretty width +:+ nl +:+
  "imHeight=" +:+ pretty height +:+ nl +:+
  "imExt=.jpg" +:+ nl.

Definition write_seqinfo (seq_path : path) : M unit :=
  fs ← get_fs;
  let imgs := sorted_paths (glob fs (p_child seq_path "img1") ".jpg") in
  match imgs with
  | [] =>
      raise (RuntimeError
               ("No frames found in " +:+ path_str (p_child seq_path "img1")))
  | first :: _ =>
      match imread fs first with
      | None => raise AttributeError
      | Some img =>
          let '(height, width) := shape2 img in
          write_text (p_child seq_path "seqinfo.ini")
            (seqinfo_text (p_name seq_path) (length imgs) height width)
      end
  end.

(** ** 4) Validation helpers *)

(** The body of the loop of [sanity_check]: the problems of one
    sequence. *)
Definition check_sequence (fs : gmap path entry) (seq : string) : list string :=
  let seq_dir := p_child ROOT seq in
  let raw_dir := p_child seq_dir "raw_videos" in
  if negb (path_exists fs seq_dir) then
    [seq +:+ ": directory not found"]
  else
    (if negb (path_exists fs raw_dir) then
       [seq +:+ ": missing raw_videos/"]
     else if negb (rglob_nonempty fs raw_dir ".ts") then
       [seq +:+ ": no .ts clips found in raw_videos/"]
     else []) ++
    (if negb (path_exists fs (p_child seq_dir "annotation.json")) then
       [seq +:+ ": missing annotation.json"]
     else []).

(** The loop over a list of sequence names. *)
Definition check_sequences (fs : gmap path entry) (seqs : list string)
  : list string :=
  seqs ≫= check_sequence fs.

Definition sanity_check : M (list string) :=
  fs ← get_fs;
  mret (check_sequences fs
          (split_of "train" ++ split_of "val" ++ split_of "test")).

(** ** 5) Core processing logic *)

(** The body of the inner loop of [build_1fps_video]. *)
Definition convert_clip (seg tmp_dir ts_file : path) : M path :=
  let mp4_path :=
    p_child tmp_dir (p_name seg +:+ "_" +:+ p_stem ts_file +:+ ".mp4") in
  ts_to_mp4 ts_file mp4_path;;
  mret mp4_path.

(** The body of the outer loop: the 1 fps video of a segment, or nothing
    when the segment has no clip. *)
Definition build_segment (tmp_dir seg : path) : M (option path) :=
  fs ← get_fs;
  mp4_list ← collect (sorted_paths (glob fs seg ".ts"))
                     (convert_clip seg tmp_dir);
  match mp4_list with
  | [] => mret None
  | _ =>
      let seg_cat := p_child tmp_dir (p_name seg +:+ "_cat.mp4") in
      concat_mp4s mp4_list seg_cat;;
      let seg_1fps := p_child tmp_dir (p_name seg +:+ "_1fps.mp4") in
      downsample_to_1fps seg_cat seg_1fps;;
      mret (Some seg_1fps)
  end.

Definition build_1fps_video (raw_dir tmp_dir : path) : M (option path) :=
  fs ← get_fs;
  entries ← lift_res (iterdir fs raw_dir);
  let dirs := filter (λ d, path_is_dir fs d = true) entries in
  let segment_dirs := if dirs is [] then [raw_dir] else dirs in
  segs ← collect (sorted_paths segment_dirs) (build_segment tmp_dir);
  let segments_1fps := omap id segs in
  match segments_1fps with
  | [] => mret None
  | [s] => mret (Some s)
  | _ =>
      let merged := p_child tmp_dir "merged_1fps.mp4" in
      concat_mp4s segments_1fps merged;;
      mret (Some merged)
  end.

(** [with tempfile.TemporaryDirectory() as td: body]: the directory is
    removed when the block is left, also by an exception. *)
Definition with_temp_dir {A} (body : path → M A) : M A := λ w,
  let td := mkdtemp (w_fs w) in
  let '(r, w') := body td (World (<[td := DirE]> (w_fs w)) (w_out w)) in
  (r, World (rmtree (w_fs w') td) (w_out w')).

Definition process_sequence (seq_name split : string) : M unit :=
  let seq_dir := p_child ROOT seq_name in
  let raw_dir := p_child seq_dir "raw_videos" in
  let anno := p_child seq_dir "annotation.json" in
  let dst_seq := p_child (p_child OUT_DIR split) seq_name in
  let img1 := p_child dst_seq "img1" in
  let gt_dir := p_child dst_seq "gt" in
  lift_fs (mkdir_p (resolve gt_dir));;
  produced ← with_temp_dir (λ td,
    merged_video ← build_1fps_video raw_dir td;
    match merged_video with
    | None =>
        print ("❌  " +:+ seq_name +:+ ": No video produced, skipping.");;
        mret false
    | Some video =>
        extract_frames video img1;;
        mret true
    end);
  if produced : bool then
    let mask_file :=
      p_child MASK_DIR
        (if String.prefix "C1" seq_name then "C1_mask.png" else "C2_mask.png") in
    apply_mask img1 mask_file;;
    sup_to_mot anno (p_child gt_dir "gt.txt");;
    write_seqinfo dst_seq
  else mret ().

(** ** 6) Entry point *)

Definition preflight_failure : string :=
  "‼️  Please fix the issues above and re‑run the script.".

(** What follows a clean validation. *)
Definition convert_all : M unit :=
  lift_fs (λ fs, mkdir fs (resolve OUT_DIR));;
  for_each SPLIT (λ '(sp, sequences),
    for_each sequences (λ seq,
      print ("▶ Converting " +:+ seq +:+ "  →  " +:+ sp);;
      process_sequence seq sp));;
  for_each SPLIT (λ '(sp, sequences),
    if sequences is [] then mret ()
    else write_text (p_child OUT_DIR (sp +:+ "_seqmap.txt"))
                    (String.concat (String "010" "") sequences));;
  print (String "010" "✅  All sequences processed successfully!  Output folder:"
         +:+ " " +:+ path_str OUT_DIR).

Definition main : M unit :=
  if negb which_ffmpeg then
    raise (SystemExit "❌  ffmpeg not found – please install it first.")
  else
    problems ← sanity_check;
    match problems with
    | _ :: _ =>
        print "=== Missing or invalid items ===";;
        for_each problems (λ p, print ("⚠️  " +:+ " " +:+ p));;
        raise (SystemExit preflight_failure)
    | [] => convert_all
    end.

(** *** Notions used to state the properties of the script *)

(** The number of frame files in [seq_path/img1/]: its entries whose
    name ends in [.jpg]. *)
Definition frame_count (fs : gmap path entry) (seq_path : path) : nat :=
  let img1 := p_child seq_path "img1" in
  if path_is_dir fs img1
  then length (filter (λ n, ends_with ".jpg" n = true)
                      (child_names fs (resolve img1)))
  else 0%nat.

(** The sequences [sanity_check] goes through. *)
Definition all_sequences : list string :=
  split_of "train" ++ split_of "val" ++ split_of "test".

(** A sequence that passes every check of [sanity_check]. *)
Definition seq_ok (fs : gmap path entry) (seq : string) : bool :=
  let seq_dir := p_child ROOT seq in
  let raw_dir := p_child seq_dir "raw_videos" in
  path_exists fs seq_dir && path_exists fs raw_dir &&
  rglob_nonempty fs raw_dir ".ts" &&
  path_exists fs (p_child seq_dir "annotation.json").

(** The lines [main] prints for a list of problems. *)
Definition problem_report (problems : list string) : list string :=
  "=== Missing or invalid items ===" ::
  ((λ p, "⚠️  " +:+ " " +:+ p) <$> problems).

End script.

(** The same host with another order of directory listings. *)
Definition with_order (h : Host) (order : path → list string → list string)
  : Host := {|
  cwd := cwd;
  scandir_order := order;
  which_ffmpeg := which_ffmpeg;
  ffmpeg := ffmpeg;
  mkdtemp := mkdtemp;
  imdecode_color := imdecode_color;
  imdecode_gray := imdecode_gray;
  imencode_jpg := imencode_jpg;
  resize_impl := resize_impl;
  json_loads := json_loads;
|}.

End Script.

(** ** A small host, to run the script on concrete inputs *)

Module Demo.
Import Py SupToMot Img Fs Script.

(** The binary64 number nearest to [m * 2^e]. *)
Definition b64 (m e : Z) : num :=
  PyFloat (binary_normalize prec64 emax64 m e false).

(** A toy image format: a file of [n > 0] bytes is a one-row image of
    [n] pixels, the byte being the value of the pixel (of each of its
    channels); an empty file does not decode. *)
Definition toy_decode_gray (data : string) : option gray :=
  match data with
  | EmptyString => None
  | _ => Some [(λ c, Z.of_nat (nat_of_ascii c)) <$> list_ascii_of_string data]
  end.

Definition toy_decode_color (data : string) : option color :=
  (λ g : gray, map (map (λ v, [v; v; v])) g) <$> toy_decode_gray data.

Definition toy_encode (img : color) : string :=
  string_of_list_ascii
    ((λ px, ascii_of_nat (Z.to_nat (hd 0 px))) <$> hd [] img).

(** A probe in the place of the resampling: an image of the requested
    size ([dsize] is width, then height) filled with the interpolation
    flag the resampling was asked for. *)
Definition toy_resize (src : gray) (dsize : nat * nat) (interpolation : Z)
  : gray :=
  replicate dsize.2 (replicate dsize.1 interpolation).

(** An [ffmpeg] that succeeds and appends its command line to the file
    [/ffmpeg.log]; asked for the frames of sequence [C1D-1] of the
    training split, it also writes two frames of two pixels. *)
Definition toy_ffmpeg (cmd : list string) (fs : gmap path entry)
  : gmap path entry * bool :=
  let log := ["/"; "ffmpeg.log"] in
  let old := match fs !! log with Some (FileE s) => s | _ => "" end in
  let fs' :=
    <[log := FileE (old +:+ String.concat " " cmd +:+ String "010" "")]> fs in
  let img1 := ["/"; "work"; "dataset"; "train"; "C1D-1"; "img1"] in
  if decide (List.last cmd "" = "dataset/train/C1D-1/img1/%08d.jpg") then
    (<[img1 ++ ["00000001.jpg"] := FileE "ab"]>
       (<[img1 ++ ["00000002.jpg"] := FileE "cd"]> fs'), true)
  else (fs', true).

(** A decoder that knows one document. *)
Definition toy_document : list frame :=
  [Frame 0 [Figure 7 [[PyInt 50; PyInt 80]; [PyInt 10; PyInt 20]]];
   Frame 2 [Figure 3 [[PyInt 1; PyInt 2]; [PyInt 3; PyInt 4]]]].

(** The same document, the second figure without its [points], and a
    document whose second frame record has neither figures nor index. *)
Definition toy_cut_document : list frame :=
  [Frame 0 [Figure 7 [[PyInt 50; PyInt 80]; [PyInt 10; PyInt 20]]];
   Frame 2 [RawFigure 3 (Raise KeyError)]].

Definition toy_bare_document : list frame :=
  [Frame 0 [Figure 7 [[PyInt 50; PyInt 80]; [PyInt 10; PyInt 20]]];
   RawFrame (Raise KeyError) []].

Definition toy_json_loads (text : string) : res (list frame) :=
  if decide (text = "doc") then Ok toy_document
  else if decide (text = "cut") then Ok toy_cut_document
  else if decide (text = "bare") then Ok toy_bare_document
  else Raise JSONDecodeError.

Definition toy_host (order : path → list string → list string) : Host := {|
  cwd := ["/"; "work"];
  scandir_order := order;
  which_ffmpeg := true;
  ffmpeg := toy_ffmpeg;
  mkdtemp := λ _, ["/"; "tmp"; "td"];
  imdecode_color := toy_decode_color;
  imdecode_gray := toy_decode_gray;
  imencode_jpg := toy_encode;
  resize_impl := toy_resize;
  json_loads := toy_json_loads;
|}.

(** The same host with an [ffmpeg] that, at every call, also leaves a file
    [out.mp4] in the scratch directory. *)
Definition scratch_ffmpeg (cmd : list string) (fs : gmap path entry)
  : gmap path entry * bool :=
  let '(fs', ok) := toy_ffmpeg cmd fs in
  (<[["/"; "tmp"; "td"; "out.mp4"] := FileE "v"]> fs', ok).

Definition scratch_host : Host := {|
  cwd := ["/"; "work"];
  scandir_order := λ _ l, l;
  which_ffmpeg := true;
  ffmpeg := scratch_ffmpeg;
  mkdtemp := λ _, ["/"; "tmp"; "td"];
  imdecode_color := toy_decode_color;
  imdecode_gray := toy_decode_gray;
  imencode_jpg := toy_encode;
  resize_impl := toy_resize;
  json_loads := toy_json_loads;
|}.

(** A file system from a list of directories and a list of files. *)
Definition fs_of (dirs : list path) (files : list (path * string))
  : gmap path entry :=
  list_to_map (((λ d, (d, DirE)) <$> dirs) ++
               ((λ f, (f.1, FileE f.2)) <$> files)).

(** The input of one sequence whose only clip lies two directories below
    [raw_videos/]. *)
Definition deep_sequence (seq : string) : gmap path entry :=
  let seq_dir := ["/"; "work"; "OinkTrack"; seq] in
  fs_of [seq_dir;
         seq_dir ++ ["raw_videos"];
         seq_dir ++ ["raw_videos"; "a"];
         seq_dir ++ ["raw_videos"; "a"; "b"]]
        [(seq_dir ++ ["raw_videos"; "a"; "b"; "clip.ts"], "ts");
         (seq_dir ++ ["annotation.json"], "doc")].

(** The base directories and one recording with two segments, listed out
    of order. *)
Definition two_segments_fs : gmap path entry :=
  let seq_dir := ["/"; "work"; "OinkTrack"; "C1D-1"] in
  fs_of [["/"]; ["/"; "tmp"]; ["/"; "work"]; ["/"; "work"; "OinkTrack"];
         seq_dir;
         seq_dir ++ ["raw_videos"];
         seq_dir ++ ["raw_videos"; "s2"];
         seq_dir ++ ["raw_videos"; "s1"]]
        [(seq_dir ++ ["raw_videos"; "s1"; "b.ts"], "ts");
         (seq_dir ++ ["raw_videos"; "s1"; "a.ts"], "ts");
         (seq_dir ++ ["raw_videos"; "s2"; "c.ts"], "ts");
         (seq_dir ++ ["annotation.json"], "doc")].

(** An output sequence directory whose [img1/] holds the given frame
    files. *)
Definition frames_fs (frames : list (string * string)) : gmap path entry :=
  let dst_seq := ["/"; "work"; "dataset"; "train"; "C1D-1"] in
  fs_of [["/"]; ["/"; "work"]; ["/"; "work"; "dataset"];
         ["/"; "work"; "dataset"; "train"]; dst_seq; dst_seq ++ ["img1"]]
        ((λ f, (dst_seq ++ ["img1"; f.1], f.2)) <$> frames).

(** The base directories and one recording whose two clips lie in
    [raw_videos/] itself. *)
Definition one_segment_fs : gmap path entry :=
  let seq_dir := ["/"; "work"; "OinkTrack"; "C1D-1"] in
  fs_of [["/"]; ["/"; "tmp"]; ["/"; "work"]; ["/"; "work"; "OinkTrack"];
         seq_dir; seq_dir ++ ["raw_videos"]]
        [(seq_dir ++ ["raw_videos"; "b.ts"], "ts");
         (seq_dir ++ ["raw_videos"; "a.ts"], "ts");
         (seq_dir ++ ["annotation.json"], "doc")].

(** One recording with a clip in [raw_videos/] itself and an empty
    sub-directory beside it. *)
Definition mixed_layout_fs : gmap path entry :=
  let seq_dir := ["/"; "work"; "OinkTrack"; "C1D-1"] in
  fs_of [["/"]; ["/"; "tmp"]; ["/"; "work"]; ["/"; "work"; "OinkTrack"];
         seq_dir; seq_dir ++ ["raw_videos"];
         seq_dir ++ ["raw_videos"; "part1"]]
        [(seq_dir ++ ["raw_videos"; "a.ts"], "ts");
         (seq_dir ++ ["annotation.json"], "doc")].

(** Four frames, the second of which does not decode and the fourth of
    which is wider than the mask, with the mask of camera C1: a pixel
    masked out and a pixel kept. *)
Definition masking_fs : gmap path entry :=
  <[["/"; "work"; "OinkTrack"; "masks"; "C1_mask.png"] :=
      FileE (String "000" "x")]>
    (<[["/"; "work"; "OinkTrack"; "masks"] := DirE]>
       (<[["/"; "work"; "OinkTrack"] := DirE]>
          (frames_fs [("00000001.jpg", "ab"); ("00000002.jpg", "");
                      ("00000003.jpg", "cd"); ("00000004.jpg", "efg")]))).

(** The base directories and one recording whose only clip lies two
    directories below [raw_videos/]. *)
Definition deep_recording_fs : gmap path entry :=
  deep_sequence "C1D-1" ∪
  fs_of [["/"]; ["/"; "work"]; ["/"; "work"; "OinkTrack"]; ["/"; "tmp"]] [].

(** The base directories and, for every sequence of the split, a
    recording without any clip. *)
Definition empty_recordings_fs : gmap path entry :=
  fs_of ([["/"]; ["/"; "tmp"]; ["/"; "work"]; ["/"; "work"; "OinkTrack"]] ++
         ((SPLIT ≫= snd) ≫= λ seq,
            [["/"; "work"; "OinkTrack"; seq];
             ["/"; "work"; "OinkTrack"; seq; "raw_videos"]])) [].

(** Such an input for every sequence of the split. *)
Definition deep_fs : gmap path entry :=
  foldr (λ seq fs, deep_sequence seq ∪ fs)
        (fs_of [["/"]; ["/"; "work"]; ["/"; "work"; "OinkTrack"]; ["/"; "tmp"]] [])
        (SPLIT ≫= snd).

End Demo.

(** ** Notions used to state further properties *)

Module Notions.
Import Py SupToMot Img Fs Script.

(** The command line [concat_mp4s] runs. *)
Definition concat_cmd (lst_file output_path : path) : list string :=
  ["ffmpeg"; "-y"; "-loglevel"; "error"; "-f"; "concat"; "-safe"; "0";
   "-i"; path_str lst_file; "-c"; "copy"; path_str output_path].

(** The directories and files [process_sequence] works with. *)
Section places.
Context {host : Host}.

Definition raw_dir_of (seq_name : string) : path :=
  p_child (p_child ROOT seq_name) "raw_videos".

Definition dst_seq_of (seq_name split : string) : path :=
  p_child (p_child OUT_DIR split) seq_name.

Definition mask_file_of (seq_name : string) : path :=
  p_child MASK_DIR
    (if String.prefix "C1" seq_name then "C1_mask.png" else "C2_mask.png").

Definition skip_message (seq_name : string) : string :=
  "❌  " +:+ seq_name +:+ ": No video produced, skipping.".

(** The three stages that follow the extraction of the frames. *)
Definition finish_sequence (seq_name split : string) : M unit :=
  let dst_seq := dst_seq_of seq_name split in
  apply_mask (p_child dst_seq "img1") (mask_file_of seq_name);;
  sup_to_mot (p_child (p_child ROOT seq_name) "annotation.json")
             (p_child (p_child dst_seq "gt") "gt.txt");;
  write_seqinfo dst_seq.

End places.

End Notions.

(** * Properties *)

(** ** The identity map *)

Module SupToMotFacts.
Import Py SupToMot.

Lemma dict_from_cons k x ids m :
  dict_from k (x :: ids) m = dict_from (S k) ids (<[x := Z.of_nat k + 1]> m).
Proof.
  unfold dict_from. rewrite imap_cons. simpl.
  rewrite Nat.add_0_r. f_equal.
  apply imap_ext. intros i y _. simpl. f_equal. lia.
Qed.

Lemma dict_from_notin ids : ∀ k m oid,
  oid ∉ ids → dict_from k ids m !! oid = m !! oid.
Proof.
  induction ids as [|x ids IH]; intros k m oid Hn; [done|].
  rewrite dict_from_cons, IH by set_solver.
  apply lookup_insert_ne. set_solver.
Qed.

Lemma dict_from_lookup ids : ∀ k m i oid,
  NoDup ids → ids !! i = Some oid →
  dict_from k ids m !! oid = Some (Z.of_nat (k + i) + 1).
Proof.
  induction ids as [|x ids IH]; intros k m i oid Hnd Hi; [done|].
  apply NoDup_cons in Hnd as [Hx Hnd].
  rewrite dict_from_cons. destruct i as [|i]; simpl in Hi.
  - injection Hi as ->. rewrite dict_from_notin by done.
    rewrite lookup_insert_eq. do 2 f_equal. lia.
  - rewrite (IH _ _ i) by done. do 2 f_equal. lia.
Qed.

Lemma dict_of_ids_spec ids oid d :
  NoDup ids →
  dict_of_ids ids !! oid = Some d ↔
  ∃ i : nat, ids !! i = Some oid ∧ d = Z.of_nat i + 1.
Proof.
  intros Hnd. change (dict_of_ids ids) with (dict_from 0 ids ∅). split.
  - intros Hl. destruct (decide (oid ∈ ids)) as [Hin|Hn].
    + apply list_elem_of_lookup in Hin as [i Hi]. exists i. split; [done|].
      rewrite (dict_from_lookup _ _ _ i) in Hl by done.
      injection Hl as <-. done.
    + rewrite dict_from_notin in Hl by done. done.
  - intros (i & Hi & ->). by rewrite (dict_from_lookup _ _ _ i).
Qed.


Lemma object_ids_perm data :
  object_ids data ≡ₚ elements (object_id_set data).
Proof. apply merge_sort_Permutation. Qed.

Lemma object_ids_NoDup data : NoDup (object_ids data).
Proof. rewrite object_ids_perm. apply NoDup_elements. Qed.

Lemma object_ids_sorted data : StronglySorted Z.le (object_ids data).
Proof. apply StronglySorted_merge_sort; apply _. Qed.

Lemma elem_of_object_ids data oid :
  oid ∈ object_ids data ↔ oid ∈ object_id_set data.
Proof. rewrite object_ids_perm. apply elem_of_elements. Qed.

Lemma object_ids_length data :
  length (object_ids data) = size (object_id_set data).
Proof. by rewrite object_ids_perm. Qed.

Lemma elem_of_object_id_set data oid :
  oid ∈ object_id_set data ↔
  ∃ fr fig, fr ∈ data ∧ fig ∈ figures fr ∧ objectId fig = oid.
Proof.
  unfold object_id_set. rewrite elem_of_list_to_set, list_elem_of_bind.
  split.
  - intros (fr & Hin & Hfr). apply list_elem_of_fmap in Hin as (fig & -> & Hfig).
    eauto.
  - intros (fr & fig & Hfr & Hfig & <-). exists fr. split; [|done].
    apply list_elem_of_fmap. eauto.
Qed.

Lemma StronglySorted_lookup_le (l : list Z) i j x y :
  StronglySorted Z.le l → (i < j)%nat →
  l !! i = Some x → l !! j = Some y → x ≤ y.
Proof.
  intros Hs. revert i j. induction Hs as [|a l Hs IH Hall]; intros i j Hij Hi Hj.
  - done.
  - destruct j as [|j]; [lia|]. simpl in Hj. destruct i as [|i]; simpl in Hi.
    + injection Hi as ->. rewrite Forall_forall in Hall. apply Hall.
      by eapply list_elem_of_lookup_2.
    + apply (IH i j); [lia|done..].
Qed.

Lemma id_map_spec data oid d :
  id_map data !! oid = Some d ↔
  ∃ i : nat, object_ids data !! i = Some oid ∧ d = Z.of_nat i + 1.
Proof. apply dict_of_ids_spec, object_ids_NoDup. Qed.

Lemma id_map_dom data oid :
  oid ∈ object_id_set data ↔ is_Some (id_map data !! oid).
Proof.
  split.
  - intros Hin. apply elem_of_object_ids, list_elem_of_lookup in Hin as [i Hi].
    exists (Z.of_nat i + 1). apply id_map_spec. eauto.
  - intros [d Hd]. apply id_map_spec in Hd as (i & Hi & _).
    apply elem_of_object_ids. by eapply list_elem_of_lookup_2.
Qed.

(** C1. The identity map built by [sup_to_mot] is defined exactly on the
    object ids that occur anywhere in the document, takes its values in
    [1..N] where [N] is the number of distinct ids, reaches every value of
    that range, is injective, and is strictly increasing; the rows are
    emitted with this one map, built from the whole document. *)
Theorem id_map_dense_bijection (data : list frame) :
  let ids := object_id_set data in
  let N := Z.of_nat (size ids) in
  let idm := id_map data in
  (∀ oid, oid ∈ ids ↔
      ∃ fr fig, fr ∈ data ∧ fig ∈ figures fr ∧ objectId fig = oid) ∧
  (∀ oid, oid ∈ ids ↔ is_Some (idm !! oid)) ∧
  (∀ oid d, idm !! oid = Some d → 1 ≤ d ≤ N) ∧
  (∀ d, 1 ≤ d ≤ N → ∃ oid, idm !! oid = Some d) ∧
  (∀ o1 o2 d, idm !! o1 = Some d → idm !! o2 = Some d → o1 = o2) ∧
  (∀ o1 o2 d1 d2,
      idm !! o1 = Some d1 → idm !! o2 = Some d2 → o1 < o2 → d1 < d2) ∧
  sup_to_mot_rows data = emit_frames idm data [].
Proof.
  intros ids N idm.
  pose proof (object_ids_sorted data) as Hs.
  pose proof (object_ids_length data) as Hlen.
  pose proof (id_map_spec data) as Hspec. fold idm in Hspec.
  repeat split.
  - by apply elem_of_object_id_set.
  - by apply elem_of_object_id_set.
  - by apply id_map_dom.
  - by apply id_map_dom.
  - apply Hspec in H as (i & Hi & ->). lia.
  - apply Hspec in H as (i & Hi & ->). apply lookup_lt_Some in Hi.
    subst N ids. lia.
  - intros d [Hd1 Hd2].
    destruct (lookup_lt_is_Some_2 (object_ids data) (Z.to_nat (d - 1)))
      as [oid Hoid]; [subst N ids; lia|].
    exists oid. apply Hspec. exists (Z.to_nat (d - 1)). split; [done|lia].
  - intros o1 o2 d H1 H2.
    apply Hspec in H1 as (i1 & Hi1 & ->). apply Hspec in H2 as (i2 & Hi2 & E).
    assert (i1 = i2) as -> by lia. congruence.
  - intros o1 o2 d1 d2 H1 H2 Hlt.
    apply Hspec in H1 as (i1 & Hi1 & ->). apply Hspec in H2 as (i2 & Hi2 & ->).
    destruct (decide (i1 < i2)%nat) as [|Hge]; [lia|].
    destruct (decide (i1 = i2)) as [->|Hne].
    { assert (o1 = o2) by congruence. lia. }
    assert (o2 ≤ o1); [|lia].
    apply (StronglySorted_lookup_le (object_ids data) i2 i1); [done|lia|done..].
Qed.

(** ** Rows *)

Lemma bind_Ok_inv {A B} (r : res A) (k : A → res B) b :
  r ≫= k = Ok b → ∃ a, r = Ok a ∧ k a = Ok b.
Proof. destruct r as [a|e]; simpl; [eauto|discriminate]. Qed.

Lemma round_half_even_nonneg m e : 0 ≤ round_half_even m e.
Proof.
  unfold round_half_even. destruct (0 <=? e) eqn:He.
  - apply Z.leb_le in He. apply Z.mul_nonneg_nonneg; [lia|].
    by apply Z.pow_nonneg.
  - apply Z.leb_gt in He. cbv zeta.
    assert (0 < 2 ^ (- e)) as Hd by (apply Z.pow_pos_nonneg; lia).
    assert (0 ≤ Z.pos m / 2 ^ (- e)) as Hq by (apply Z.div_pos; lia).
    destruct (2 * (Z.pos m `mod` 2 ^ (- e)) ?= 2 ^ (- e)); [|lia..].
    destruct (Z.even _); lia.
Qed.

Lemma py_int_round_abs_nonneg v z : py_int_round (py_abs v) = Ok z → 0 ≤ z.
Proof.
  destruct v as [x|[s|s| |s m e]]; simpl; intros H; try discriminate;
    injection H as <-; [lia|lia|apply round_half_even_nonneg].
Qed.

(** What a successful [figure_row] has computed. *)
Lemma figure_row_inv idm fidx fig r :
  figure_row idm fidx fig = Ok r →
  ∃ x1 y1 x2 y2 dx dy,
    exterior fig = Ok [[x1; y1]; [x2; y2]] ∧
    py_sub x2 x1 = Ok dx ∧ py_sub y2 y1 = Ok dy ∧
    idm !! objectId fig = Some (r_id r) ∧
    py_int_round (py_min x1 x2) = Ok (r_left r) ∧
    py_int_round (py_min y1 y2) = Ok (r_top r) ∧
    py_int_round (py_abs dx) = Ok (r_width r) ∧
    py_int_round (py_abs dy) = Ok (r_height r) ∧
    r_frame r = fidx ∧ r_conf r = 1 ∧ r_class r = 1 ∧ r_vis r = 1.
Proof.
  unfold figure_row. intros H.
  apply bind_Ok_inv in H as (ext & Hext & H).
  apply bind_Ok_inv in H as ([[x1 y1] [x2 y2]] & Hu & H).
  apply bind_Ok_inv in H as (dx & Hdx & H).
  apply bind_Ok_inv in H as (dy & Hdy & H).
  apply bind_Ok_inv in H as (d & Hd & H).
  apply bind_Ok_inv in H as (xi & Hxi & H).
  apply bind_Ok_inv in H as (yi & Hyi & H).
  apply bind_Ok_inv in H as (wi & Hwi & H).
  apply bind_Ok_inv in H as (hi & Hhi & H).
  injection H as <-. simpl.
  exists x1, y1, x2, y2, dx, dy.
  assert (ext = [[x1; y1]; [x2; y2]]) as ->.
  { unfold unpack_corners in Hu.
    destruct ext as [|[|a [|b [|??]]] [|[|c [|d' [|??]]] [|??]]];
      try discriminate. by injection Hu as -> -> -> ->. }
  split; [done|].
  unfold dict_get in Hd. destruct (idm !! objectId fig); [|discriminate].
  injection Hd as ->. done.
Qed.

(** The row of a figure with integer corners. *)
Lemma figure_row_int idm fidx oid d a1 b1 a2 b2 :
  idm !! oid = Some d →
  figure_row idm fidx
    (Figure oid [[PyInt a1; PyInt b1]; [PyInt a2; PyInt b2]]) =
  Ok (Row fidx d (Z.min a1 a2) (Z.min b1 b2)
          (Z.abs (a2 - a1)) (Z.abs (b2 - b1)) 1 1 1).
Proof.
  intros Hd. unfold figure_row, dict_get, py_min. simpl. rewrite Hd. simpl.
  assert (∀ u v, py_int_round (if v <? u then PyInt v else PyInt u)
                 = Ok (Z.min u v)) as Hmin.
  { intros u v. destruct (Z.ltb_spec v u); simpl; f_equal; lia. }
  by rewrite !Hmin.
Qed.

(** Corners [(2.5, 7)] and [(1, 1.5)], an [int] and a [float] on each
    axis: the halves round to the even neighbour. *)
Example figure_row_mixed_numbers :
  figure_row (<[5 := 1]> ∅) 4
    (Figure 5 [[Demo.b64 5 (-1); PyInt 7]; [PyInt 1; Demo.b64 3 (-1)]]) =
  Ok (Row 4 1 1 2 2 6 1 1 1).
Proof. vm_compute. reflexivity. Qed.

(** A coordinate that is not a number, or a point that is not a pair,
    ends the conversion. *)
Example figure_row_raises :
  figure_row (<[5 := 1]> ∅) 4
    (Figure 5 [[PyFloat S754_nan; PyInt 7]; [PyInt 1; PyInt 2]]) =
  Raise ValueError ∧
  figure_row (<[5 := 1]> ∅) 4 (Figure 5 [[PyInt 7]; [PyInt 1; PyInt 2]]) =
  Raise ValueError.
Proof. split; vm_compute; reflexivity. Qed.

(** C2. Whenever a row is written for a figure with corners [(x1,y1)] and
    [(x2,y2)], its left and top are the rounded minima of the corner
    coordinates, its width and height the rounded absolute differences, and
    width and height are not negative.  With integer corners the row is
    always written, holds [min], [min], [|x2-x1|], [|y2-y1|] exactly and
    does not depend on the order of the two corners; corners [(50,80)],
    [(10,20)] give [10, 20, 40, 60]. *)
Theorem figure_row_box :
  (∀ idm fidx fig x1 y1 x2 y2 r,
      exterior fig = Ok [[x1; y1]; [x2; y2]] →
      figure_row idm fidx fig = Ok r →
      (∃ dx dy,
          py_sub x2 x1 = Ok dx ∧ py_sub y2 y1 = Ok dy ∧
          py_int_round (py_min x1 x2) = Ok (r_left r) ∧
          py_int_round (py_min y1 y2) = Ok (r_top r) ∧
          py_int_round (py_abs dx) = Ok (r_width r) ∧
          py_int_round (py_abs dy) = Ok (r_height r)) ∧
      0 ≤ r_width r ∧ 0 ≤ r_height r) ∧
  (∀ idm fidx oid d a1 b1 a2 b2,
      idm !! oid = Some d →
      ∃ r,
        figure_row idm fidx
          (Figure oid [[PyInt a1; PyInt b1]; [PyInt a2; PyInt b2]]) = Ok r ∧
        figure_row idm fidx
          (Figure oid [[PyInt a2; PyInt b2]; [PyInt a1; PyInt b1]]) = Ok r ∧
        r_left r = Z.min a1 a2 ∧ r_top r = Z.min b1 b2 ∧
        r_width r = Z.abs (a2 - a1) ∧ r_height r = Z.abs (b2 - b1) ∧
        0 ≤ r_width r ∧ 0 ≤ r_height r) ∧
  (∀ idm fidx oid d,
      idm !! oid = Some d →
      figure_row idm fidx
        (Figure oid [[PyInt 50; PyInt 80]; [PyInt 10; PyInt 20]]) =
      Ok (Row fidx d 10 20 40 60 1 1 1)).
Proof.
  split; [|split].
  - intros idm fidx fig x1 y1 x2 y2 r Hext Hrow.
    apply figure_row_inv in Hrow
      as (x1' & y1' & x2' & y2' & dx & dy & Hext' & Hdx & Hdy & _ &
          Hl & Ht & Hw & Hh & _).
    rewrite Hext in Hext'. injection Hext' as <- <- <- <-.
    split; [by exists dx, dy|].
    split; eapply py_int_round_abs_nonneg; eassumption.
  - intros idm fidx oid d a1 b1 a2 b2 Hd.
    eexists. split; [by apply figure_row_int|].
    rewrite (figure_row_int _ _ _ d) by done. simpl.
    split; [|lia]. f_equal. f_equal; lia.
  - intros idm fidx oid d Hd. by rewrite (figure_row_int _ _ _ d).
Qed.

(** ** Emission order *)

Lemma figure_row_fields idm fr fig i r :
  index fr = Ok i → figure_row idm (i + 1) fig = Ok r →
  row_of_figure idm (fr, fig) r.
Proof.
  intros Hidx H. exists i. split; [done|]. split; [done|].
  apply figure_row_inv in H
    as (? & ? & ? & ? & ? & ? & _ & _ & _ & Hid & _ & _ & _ & _ & ? & ? & ? & ?).
  done.
Qed.

(** The inner loop writes one row per figure, in order, up to the first
    figure whose row cannot be computed. *)
Lemma emit_figures_spec idm fr i figs : ∀ out out' err,
  index fr = Ok i →
  emit_figures idm (i + 1) figs out = (out', err) →
  ∃ new,
    out' = out ++ new ∧
    Forall2 (row_of_figure idm)
            (take (length new) ((λ fig, (fr, fig)) <$> figs)) new ∧
    match err with
    | None => length new = length figs
    | Some e => ∃ fig, figs !! length new = Some fig ∧
                       figure_row idm (i + 1) fig = Raise e
    end.
Proof.
  induction figs as [|fig figs IH]; intros out out' err Hidx H; simpl in H.
  - injection H as <- <-. exists []. by rewrite app_nil_r.
  - destruct (figure_row idm (i + 1) fig) as [r|e] eqn:Hr.
    + apply IH in H as (new & -> & HF & Herr); [|done].
      exists (r :: new). rewrite <- app_assoc. split; [done|].
      split; [constructor; [by eapply figure_row_fields|done]|].
      destruct err as [e|]; simpl; [done|lia].
    + injection H as <- <-. exists []. rewrite app_nil_r.
      split; [done|]. split; [constructor|]. by exists fig.
Qed.

Lemma doc_figures_cons fr data :
  doc_figures (fr :: data) =
  ((λ fig, (fr, fig)) <$> figures fr) ++ doc_figures data.
Proof. done. Qed.

(** The two loops write one row per figure, in document order, up to the
    place where they stop. *)
Lemma emit_frames_spec idm data : ∀ out out' err,
  emit_frames idm data out = (out', err) →
  ∃ new,
    out' = out ++ new ∧
    Forall2 (row_of_figure idm) (take (length new) (doc_figures data)) new ∧
    match err with
    | None => length new = length (doc_figures data)
    | Some e => stops_at idm data (length new) e
    end.
Proof.
  induction data as [|fr data IH]; intros out out' err H; simpl in H.
  { injection H as <- <-. exists []. by rewrite app_nil_r. }
  rewrite doc_figures_cons.
  destruct (index fr) as [i|e] eqn:Hidx.
  2:{ injection H as <- <-. exists []. rewrite app_nil_r.
      split; [done|]. split; [constructor|].
      right. exists 0%nat, fr. done. }
  destruct (emit_figures idm (i + 1) (figures fr) out) as [out1 err1] eqn:H1.
  apply (emit_figures_spec idm fr) in H1 as (new1 & -> & HF1 & Herr1);
    [|done].
  destruct err1 as [e|].
  - injection H as <- <-. exists new1. split; [done|].
    destruct Herr1 as (fig & Hfig & Hr).
    assert (length new1 < length ((λ fig, (fr, fig)) <$> figures fr))%nat
      as Hlt by (rewrite length_fmap; by eapply lookup_lt_Some).
    split.
    + rewrite take_app_le by lia. done.
    + left. exists fr, fig, i. split; [|done].
      rewrite doc_figures_cons, lookup_app_l by done.
      by rewrite list_lookup_fmap, Hfig.
  - apply IH in H as (new2 & -> & HF2 & Herr2).
    exists (new1 ++ new2). rewrite <- app_assoc. split; [done|].
    assert (length new1 = length ((λ fig, (fr, fig)) <$> figures fr))
      as Hlen by (by rewrite length_fmap).
    rewrite Herr1, firstn_all2 in HF1 by (rewrite length_fmap; lia).
    split.
    + rewrite length_app, Hlen, take_app_add. by apply Forall2_app.
    + rewrite length_app. destruct err as [e|].
      * destruct Herr2 as [(fr' & fig & i' & Hi & Hidx' & Hr)
                          |(k & fr' & Hk & Hidx' & Hn)].
        -- left. exists fr', fig, i'. split; [|done].
           rewrite doc_figures_cons, Hlen, lookup_app_r by lia.
           by replace (length _ + length new2 - length _)%nat
             with (length new2) by lia.
        -- right. exists (S k), fr'. split; [done|]. split; [done|].
           change (take (S k) (fr :: data)) with (fr :: take k data).
           rewrite doc_figures_cons, length_app, Hn. lia.
      * rewrite length_app. lia.
Qed.

Lemma doc_figures_id_map data fr fig :
  (fr, fig) ∈ doc_figures data → is_Some (id_map data !! objectId fig).
Proof.
  intros Hin. apply id_map_dom, elem_of_object_id_set.
  unfold doc_figures in Hin. apply list_elem_of_bind in Hin as (fr' & Hin & Hfr).
  apply list_elem_of_fmap in Hin as (fig' & [= -> ->] & Hfig). eauto.
Qed.

Lemma int_box_row idm fidx fig :
  int_box fig = true → is_Some (idm !! objectId fig) →
  ∃ r, figure_row idm fidx fig = Ok r.
Proof.
  destruct fig as [oid ext]. unfold int_box. simpl. intros Hb [d Hd].
  repeat case_match; try discriminate; subst.
  eexists. by apply (figure_row_int idm fidx oid d).
Qed.

(** The converter on a whole document. *)
Lemma sup_to_mot_rows_spec data rows err :
  sup_to_mot_rows data = (rows, err) →
  Forall2 (row_of_figure (id_map data))
          (take (length rows) (doc_figures data)) rows ∧
  match err with
  | None => length rows = length (doc_figures data)
  | Some e => stops_at (id_map data) data (length rows) e
  end.
Proof.
  unfold sup_to_mot_rows. intros H.
  apply emit_frames_spec in H as (new & -> & HF & Herr). done.
Qed.

(** The loops run to the end on a document whose frame records all have an
    integer index and whose figures all have integer corners. *)
Lemma sup_to_mot_rows_int data :
  Forall (λ fr, int_index fr = true) data →
  Forall (λ p, int_box p.2 = true) (doc_figures data) →
  ∃ rows, sup_to_mot_rows data = (rows, None).
Proof.
  intros Hidx Hbox.
  destruct (sup_to_mot_rows data) as [rows [e|]] eqn:H; [|by exists rows].
  apply sup_to_mot_rows_spec in H as [_ Hstop]. exfalso.
  destruct Hstop as [(fr & fig & i & Hi & _ & Hr)|(k & fr & Hk & Hi & _)].
  - apply list_elem_of_lookup_2 in Hi.
    rewrite Forall_forall in Hbox. pose proof (Hbox _ Hi) as Hb.
    destruct (int_box_row (id_map data) (i + 1) fig Hb) as [r Hr'];
      [by eapply doc_figures_id_map|].
    simpl in Hr'. congruence.
  - apply list_elem_of_lookup_2 in Hk.
    rewrite Forall_forall in Hidx. specialize (Hidx _ Hk).
    unfold int_index in Hidx. by rewrite Hi in Hidx.
Qed.

(** The rows of the document with frame records 0 and 2, holding one
    figure each, with object ids 7 and 3. *)
Lemma two_frames_rows a1 b1 a2 b2 c1 d1 c2 d2 :
  let data :=
    [Frame 0 [Figure 7 [[PyInt a1; PyInt b1]; [PyInt a2; PyInt b2]]];
     Frame 2 [Figure 3 [[PyInt c1; PyInt d1]; [PyInt c2; PyInt d2]]]] in
  id_map data = <[7 := 2]> (<[3 := 1]> ∅) ∧
  sup_to_mot_rows data =
  ([Row 1 2 (Z.min a1 a2) (Z.min b1 b2)
        (Z.abs (a2 - a1)) (Z.abs (b2 - b1)) 1 1 1;
    Row 3 1 (Z.min c1 c2) (Z.min d1 d2)
        (Z.abs (c2 - c1)) (Z.abs (d2 - d1)) 1 1 1], None).
Proof.
  intros data.
  assert (id_map data = <[7 := 2]> (<[3 := 1]> ∅)) as Hmap
    by (vm_compute; reflexivity).
  split; [done|].
  unfold sup_to_mot_rows. rewrite Hmap. subst data.
  unfold emit_frames, emit_figures, Frame, index, figures.
  rewrite (figure_row_int _ _ _ 2) by done. simpl.
  rewrite (figure_row_int _ _ _ 1) by done. done.
Qed.

End SupToMotFacts.

(** ** Running the script *)

(** Unfolds the sequencing of the script's computations at [f]. *)
Tactic Notation "run_M" reference(f) :=
  unfold f, mbind, Script.M_bind, Script.get_fs; simpl.

(** ** Masking *)

Module MaskFacts.
Import Py SupToMot Img Fs Script.

Lemma mapM_res_Ok {A B} (f : A → res B) l k :
  mapM f l = Ok k ↔ Forall2 (λ x y, f x = Ok y) l k.
Proof.
  revert k. induction l as [|x l IH]; intros k; simpl.
  - split; [intros [= <-]; constructor|by inv 1].
  - split.
    + destruct (f x) as [y|e] eqn:Hx; simpl; [|done].
      destruct (mapM f l) as [k'|e] eqn:Hl; simpl; [|done].
      intros [= <-]. constructor; [done|by apply IH].
    + inv 1 as [|???? Hx Hl]. rewrite Hx. simpl.
      apply IH in Hl. rewrite Hl. done.
Qed.

(** The product with a mask value of 0 or 1 absorbs a second product. *)
Lemma u8_mul_idem p m : m = 0 ∨ m = 1 → u8_mul (u8_mul p m) m = u8_mul p m.
Proof.
  unfold u8_mul. intros [-> | ->].
  - by rewrite !Z.mul_0_r.
  - rewrite !Z.mul_1_r. by rewrite Z.mod_mod.
Qed.

(** One axis of broadcasting keeps the idempotence of the elementwise
    operation. *)
Lemma broadcast_idem {A B} (f : A → B → res A) xs ys zs :
  Forall (λ y, ∀ x z, f x y = Ok z → f z y = Ok z) ys →
  broadcast f xs ys = Ok zs → broadcast f zs ys = Ok zs.
Proof.
  intros Hidem. unfold broadcast.
  destruct (decide (length xs = length ys)) as [Hlen|Hlen].
  - intros Hz. apply mapM_res_Ok in Hz.
    assert (length zs = length ys) as Hlz.
    { apply Forall2_length in Hz. rewrite length_zip_with in Hz. lia. }
    rewrite decide_True by done. apply mapM_res_Ok.
    clear Hlen Hlz. revert xs zs Hz.
    induction Hidem as [|y ys Hy _ IH]; intros xs zs Hz.
    + destruct xs; simpl in Hz; inv Hz; constructor.
    + destruct xs as [|x xs]; simpl in Hz; inv Hz; simpl; [constructor|].
      constructor; [simpl in *; eauto|eauto].
  - destruct xs as [|x [|x' xs]].
    + destruct ys as [|y [|y' ys]]; simpl; try done.
      intros [= <-]. simpl. done.
    + intros Hz. apply mapM_res_Ok in Hz.
      assert (length zs = length ys) as Hlz
        by (symmetry; by eapply Forall2_length).
      rewrite decide_True by done. apply mapM_res_Ok.
      clear Hlen Hlz. revert zs Hz.
      induction Hidem as [|y ys Hy _ IH]; intros zs Hz; inv Hz; simpl;
        constructor; simpl; eauto.
    + destruct ys as [|y [|y' ys]]; try done.
      intros Hz. apply mapM_res_Ok in Hz.
      pose proof (Forall2_length _ _ _ Hz) as Hlz.
      rewrite decide_False by (simpl in *; lia).
      destruct zs as [|z [|z' zs]]; simpl in Hlz; try lia.
      apply mapM_res_Ok. inv Hidem as [|?? Hy _].
      clear Hlen Hlz. induction Hz; constructor; eauto.
Qed.

Lemma binarize_binary mask : Forall (Forall binary) (binarize mask).
Proof.
  unfold binarize. apply Forall_fmap, Forall_true. intros row.
  apply Forall_fmap, Forall_true. intros v. simpl.
  destruct (0 <? v); [by right|by left].
Qed.

Lemma mul_mask_idem img m img' :
  Forall (Forall binary) m →
  mul_mask img m = Ok img' → mul_mask img' m = Ok img'.
Proof.
  intros Hm. unfold mul_mask. apply broadcast_idem.
  eapply Forall_impl; [exact Hm|]. intros mrow Hrow irow zrow.
  apply broadcast_idem.
  eapply Forall_impl; [exact Hrow|]. intros mv Hmv px z [= <-].
  f_equal. rewrite <- list_fmap_compose. apply list_fmap_ext.
  intros i c _. simpl. by apply u8_mul_idem.
Qed.

(** C8. The product of a pixel value with a mask value of 0 or 1,
    taken twice, is the product taken once; the binarised mask holds
    only 0 and 1; hence masking an already masked image with the same
    mask of zeros and ones returns it unchanged. *)
Theorem mask_idempotent :
  (∀ p m, m = 0 ∨ m = 1 → u8_mul (u8_mul p m) m = u8_mul p m) ∧
  (∀ mask, Forall (Forall (λ v, v = 0 ∨ v = 1)) (binarize mask)) ∧
  (∀ img m img',
      Forall (Forall (λ v, v = 0 ∨ v = 1)) m →
      mul_mask img m = Ok img' → mul_mask img' m = Ok img') ∧
  (∀ img mask img',
      mul_mask img (binarize mask) = Ok img' →
      mul_mask img' (binarize mask) = Ok img').
Proof.
  split; [exact u8_mul_idem|]. split; [exact binarize_binary|].
  split; [exact mul_mask_idem|].
  intros img mask img'. apply mul_mask_idem, binarize_binary.
Qed.

Section host.
Context {host : Host}.

(** The mask of a frame: resized exactly when the shapes differ, and
    then with the interpolation left at the default of [cv2.resize]. *)
Lemma frame_mask_spec mask img :
  (shape2 img = shape2 mask → frame_mask mask img = mask) ∧
  (shape2 img ≠ shape2 mask →
   frame_mask mask img =
   resize_impl mask ((shape2 img).2, (shape2 img).1) INTER_LINEAR).
Proof.
  unfold frame_mask. split; intros Hs.
  - by rewrite decide_False by (by intros []).
  - by rewrite decide_True.
Qed.

(** One step of the loop of [apply_mask] prints nothing, and either
    leaves the file system alone or replaces the frame it has read. *)
Lemma mask_frame_step mask jpg w r w' :
  mask_frame mask jpg w = (r, w') →
  w_out w' = w_out w ∧
  (w_fs w' = w_fs w ∨
   ∃ img data, imread (w_fs w) jpg = Some img ∧
               w_fs w' = <[resolve jpg := FileE data]> (w_fs w)).
Proof.
  run_M mask_frame.
  destruct (imread (w_fs w) jpg) as [img|] eqn:Him; simpl.
  - unfold lift_res. destruct (mul_mask img _) as [masked|e]; simpl.
    + run_M imwrite.
      destruct (write_file _ _ _) as [fs'|e] eqn:Hw; simpl.
      * intros [= <- <-]. split; [done|]. right.
        exists img, (imencode_jpg masked). split; [done|].
        unfold write_file in Hw. repeat case_match; by simplify_eq.
      * intros [= <- <-]. eauto.
    + intros [= <- <-]. eauto.
  - intros [= <- <-]. eauto.
Qed.

Lemma mask_frame_unreadable mask jpg w :
  imread (w_fs w) jpg = None → mask_frame mask jpg w = (Ok (), w).
Proof.
  intros Him. run_M mask_frame.
  by rewrite Him.
Qed.

Lemma mask_loop_unreadable mask jpgs : ∀ w r w',
  for_each jpgs (mask_frame mask) w = (r, w') →
  w_out w' = w_out w ∧
  ∀ q, imread (w_fs w) q = None →
       w_fs w' !! resolve q = w_fs w !! resolve q.
Proof.
  induction jpgs as [|jpg jpgs IH]; intros w r w'; simpl.
  - intros [= <- <-]. done.
  - unfold mbind, M_bind.
    destruct (mask_frame mask jpg w) as [r1 w1] eqn:H1.
    apply mask_frame_step in H1 as [Hout Hfs].
    assert (∀ q, imread (w_fs w) q = None →
                 w_fs w1 !! resolve q = w_fs w !! resolve q) as Hkeep.
    { intros q Hq. destruct Hfs as [->|(img & data & Him & ->)]; [done|].
      apply lookup_insert_ne. intros Heq. unfold imread in Him, Hq.
      rewrite Heq in Him. congruence. }
    destruct r1 as [[]|e].
    + intros H2. apply IH in H2 as [Hout2 Hfs2]. split; [congruence|].
      intros q Hq. rewrite Hfs2, Hkeep; [done..|].
      unfold imread. rewrite Hkeep by done. exact Hq.
    + intros [= <- <-]. done.
Qed.

End host.

(** C6. [apply_mask] resizes the mask for a frame exactly when the two
    shapes differ, but the resampling it then asks for is the default of
    [cv2.resize], [INTER_LINEAR]: the flag [cv2.INTER_NEAREST] is passed
    in the position of the output array.  On the probe host a 1x1 mask
    resized for a 1x2 frame comes back filled with [INTER_LINEAR]. *)
Theorem frame_mask_interpolation :
  (∀ (host : Host) mask img,
      (shape2 img = shape2 mask → frame_mask mask img = mask) ∧
      (shape2 img ≠ shape2 mask →
       frame_mask mask img =
       resize_impl mask ((shape2 img).2, (shape2 img).1) INTER_LINEAR)) ∧
  INTER_LINEAR ≠ INTER_NEAREST ∧
  frame_mask (host := Demo.toy_host (λ _ l, l)) [[1]] [[[9; 9; 9]; [9; 9; 9]]]
  = [[INTER_LINEAR; INTER_LINEAR]].
Proof.
  split; [intros host mask img; apply frame_mask_spec|].
  split; [done|]. reflexivity.
Qed.

(** C7. When the mask cannot be read, [apply_mask] prints the warning,
    changes no file and returns normally.  When the mask can be read, a
    frame that cannot be read is passed over without any effect and the
    loop goes on with the frames that follow; at the end nothing has been
    printed and every path that held no readable image holds what it held
    before. *)
Theorem apply_mask_missing_inputs :
  (∀ (host : Host) w img_dir mask_path,
      imread_gray (w_fs w) mask_path = None →
      apply_mask img_dir mask_path w =
      (Ok (), World (w_fs w)
                    (w_out w ++
                     ["⚠️  Mask not found: " +:+ path_str mask_path]))) ∧
  (∀ (host : Host) mask jpg rest w,
      imread (w_fs w) jpg = None →
      for_each (jpg :: rest) (mask_frame mask) w =
      for_each rest (mask_frame mask) w) ∧
  (∀ (host : Host) w img_dir mask_path mask r w',
      imread_gray (w_fs w) mask_path = Some mask →
      apply_mask img_dir mask_path w = (r, w') →
      w_out w' = w_out w ∧
      ∀ q, imread (w_fs w) q = None →
           w_fs w' !! resolve q = w_fs w !! resolve q).
Proof.
  split; [|split].
  - intros host w img_dir mask_path Hm.
    run_M apply_mask. by rewrite Hm.
  - intros host mask jpg rest w Him. simpl. unfold mbind, M_bind.
    by rewrite mask_frame_unreadable.
  - intros host w img_dir mask_path mask r w' Hm.
    run_M apply_mask. rewrite Hm. simpl.
    apply mask_loop_unreadable.
Qed.

(** A run on the small host: the frame that does not decode is left as
    it is, the frames around it are masked, and nothing is printed. *)
Example apply_mask_run :
  let host := Demo.toy_host (λ _ l, l) in
  let img1 := ["dataset"; "train"; "C1D-1"; "img1"] in
  let w' := (apply_mask img1 (p_child MASK_DIR "C1_mask.png")
               (World Demo.masking_fs [])).2 in
  w_out w' = [] ∧
  (λ f, w_fs w' !! resolve (p_child img1 f)) <$>
    ["00000001.jpg"; "00000002.jpg"; "00000003.jpg"] =
  [Some (FileE (String "000" "b")); Some (FileE "");
   Some (FileE (String "000" "d"))].
Proof. split; vm_compute; reflexivity. Qed.

(** A second run on the result of the first changes nothing (the toy
    image format loses nothing when a frame is written and read back). *)
Example apply_mask_twice_run :
  let host := Demo.toy_host (λ _ l, l) in
  let img1 := ["dataset"; "train"; "C1D-1"; "img1"] in
  let mask_file := p_child MASK_DIR "C1_mask.png" in
  let w1 := (apply_mask img1 mask_file (World Demo.masking_fs [])).2 in
  apply_mask img1 mask_file w1 = (Ok (), w1).
Proof. vm_compute. reflexivity. Qed.

End MaskFacts.

(** ** The order of paths *)

Module PathFacts.
Import Py Fs.

#[global] Instance path_le_total : Total path_le.
Proof.
  intros p. unfold path_le.
  induction p as [|a p IH]; intros [|b q]; simpl; auto.
  destruct (decide (a = b)) as [->|Hne].
  - rewrite decide_True by done. apply IH.
  - rewrite (decide_False (P := b = a)) by done.
    destruct (total String.le a b); [left|right]; by apply bool_decide_pack.
Qed.

#[global] Instance path_le_trans : Transitive path_le.
Proof.
  intros p. unfold path_le.
  induction p as [|a p IH]; intros [|b q] [|c r]; simpl; try done.
  destruct (decide (a = b)) as [->|Hab].
  - destruct (decide (b = c)) as [->|Hbc]; [apply IH|done].
  - intros Hle1%bool_decide_unpack.
    destruct (decide (b = c)) as [->|Hbc].
    + intros _. rewrite decide_False by done. by apply bool_decide_pack.
    + intros Hle2%bool_decide_unpack.
      destruct (decide (a = c)) as [->|Hac].
      * destruct Hab. by apply (anti_symm String.le).
      * apply bool_decide_pack. by etrans.
Qed.

#[global] Instance path_le_antisym : AntiSymm (=) path_le.
Proof.
  intros p. unfold path_le.
  induction p as [|a p IH]; intros [|b q]; simpl; try done.
  destruct (decide (a = b)) as [->|Hab].
  - rewrite decide_True by done. intros H1 H2. f_equal. by apply IH.
  - rewrite (decide_False (P := b = a)) by done.
    intros H1%bool_decide_unpack H2%bool_decide_unpack.
    destruct Hab. by apply (anti_symm String.le).
Qed.

Lemma sorted_paths_sorted l : StronglySorted path_le (sorted_paths l).
Proof. apply StronglySorted_merge_sort; apply _. Qed.

Lemma sorted_paths_perm l : sorted_paths l ≡ₚ l.
Proof. apply merge_sort_Permutation. Qed.

(** Sorting forgets the order in which the paths were found. *)
Lemma sorted_paths_Permutation l1 l2 :
  l1 ≡ₚ l2 → sorted_paths l1 = sorted_paths l2.
Proof.
  intros Hp. apply (StronglySorted_unique path_le).
  - apply sorted_paths_sorted.
  - apply sorted_paths_sorted.
  - by rewrite !sorted_paths_perm.
Qed.

End PathFacts.

(** ** Assembly, validation and the descriptor *)

Module ScriptFacts.
Import Py SupToMot Img Fs Script PathFacts.

Lemma collect_ext {A B} (f g : A → M B) l :
  (∀ x w, f x w = g x w) → ∀ w, collect l f w = collect l g w.
Proof.
  intros Hfg. induction l as [|x l IH]; intros w; simpl; [done|].
  unfold mbind, M_bind. rewrite Hfg.
  destruct (g x w) as [[y|e] w1]; [|done]. by rewrite IH.
Qed.

Section order.
Context (host : Host) (order' : path → list string → list string).
Context (Hperm : ∀ p l, scandir_order p l ≡ₚ l).
Context (Hperm' : ∀ p l, order' p l ≡ₚ l).

Lemma scandir_with_order fs p :
  scandir (host := with_order host order') fs p ≡ₚ scandir fs p.
Proof.
  unfold scandir. simpl. apply fmap_Permutation.
  change (order' (resolve p) (child_names fs (resolve p))
          ≡ₚ scandir_order (resolve p) (child_names fs (resolve p))).
  by rewrite Hperm, Hperm'.
Qed.

Lemma glob_with_order fs p suffix :
  sorted_paths (glob (host := with_order host order') fs p suffix) =
  sorted_paths (glob fs p suffix).
Proof.
  apply sorted_paths_Permutation. unfold glob.
  change (path_is_dir (host := with_order host order') fs p)
    with (path_is_dir fs p).
  destruct (path_is_dir fs p); [|done].
  apply filter_Permutation, scandir_with_order.
Qed.

Lemma build_segment_with_order tmp_dir seg w :
  build_segment (host := with_order host order') tmp_dir seg w =
  build_segment tmp_dir seg w.
Proof.
  run_M build_segment.
  by rewrite glob_with_order.
Qed.

Lemma build_1fps_video_with_order raw_dir tmp_dir w :
  build_1fps_video (host := with_order host order') raw_dir tmp_dir w =
  build_1fps_video raw_dir tmp_dir w.
Proof.
  unfold build_1fps_video, mbind, M_bind, get_fs, lift_res, iterdir. simpl.
  change (resolve (host := with_order host order') raw_dir)
    with (resolve raw_dir).
  destruct (w_fs w !! resolve raw_dir) as [[data|]|]; [done| |done].
  simpl.
  set (dirs' := filter _ (scandir (host := with_order host order') _ _)).
  set (dirs := filter _ (scandir (w_fs w) raw_dir)).
  assert (dirs' ≡ₚ dirs) as Hd.
  { apply filter_Permutation, scandir_with_order. }
  assert (sorted_paths (if dirs' is [] then [raw_dir] else dirs') =
          sorted_paths (if dirs is [] then [raw_dir] else dirs)) as ->.
  { apply sorted_paths_Permutation.
    destruct dirs' as [|d' ds'].
    - apply Permutation_nil_l in Hd as <-. done.
    - destruct dirs as [|d ds]; [by apply Permutation_nil_r in Hd|done]. }
  rewrite (collect_ext _ (build_segment tmp_dir))
    by apply build_segment_with_order.
  done.
Qed.

End order.

(** C9. The video assembly does not depend on the order in which the
    operating system lists directories: with any two listing orders of
    the same directories, [build_1fps_video] started in the same world
    runs the same commands and ends with the same result and the same
    world, because segments and clips are sorted by name before use. *)
Theorem assembly_order_independent (host : Host)
    (order' : path → list string → list string) :
  (∀ p l, scandir_order p l ≡ₚ l) →
  (∀ p l, order' p l ≡ₚ l) →
  ∀ raw_dir tmp_dir w,
    build_1fps_video (host := with_order host order') raw_dir tmp_dir w =
    build_1fps_video raw_dir tmp_dir w ∧
    (∀ seg, StronglySorted path_le
              (sorted_paths (glob (w_fs w) seg ".ts"))) ∧
    (∀ seg, sorted_paths (glob (host := with_order host order')
                               (w_fs w) seg ".ts") =
            sorted_paths (glob (w_fs w) seg ".ts")).
Proof.
  intros Hperm Hperm' raw_dir tmp_dir w. split; [|split].
  - by apply build_1fps_video_with_order.
  - intros seg. apply sorted_paths_sorted.
  - intros seg. by apply glob_with_order.
Qed.

Lemma assembly_order_independent_witness :
  let raw_dir := ["/"; "work"; "OinkTrack"; "C1D-1"; "raw_videos"] in
  let tmp_dir := ["/"; "tmp"] in
  let w := World Demo.two_segments_fs [] in
  build_1fps_video
    (host := with_order (Demo.toy_host (λ _ l, l)) (λ _ l, reverse l))
    raw_dir tmp_dir w =
  build_1fps_video (host := Demo.toy_host (λ _ l, l)) raw_dir tmp_dir w.
Proof.
  intros raw_dir tmp_dir w.
  apply (assembly_order_independent (Demo.toy_host (λ _ l, l))
           (λ _ l, reverse l)).
  - intros p l. simpl. reflexivity.
  - intros p l. apply reverse_Permutation.
Defined.

(** A run on the small host with the directories listed in reverse: the
    clips are converted segment by segment in the order of their names. *)
Example assembly_run_in_name_order :
  let host := Demo.toy_host (λ _ l, reverse l) in
  let raw_dir := ["/"; "work"; "OinkTrack"; "C1D-1"; "raw_videos"] in
  let '(r, w') := build_1fps_video raw_dir ["/"; "tmp"]
                    (World Demo.two_segments_fs []) in
  r = Ok (Some ["/"; "tmp"; "merged_1fps.mp4"]) ∧
  ∃ log, w_fs w' !! ["/"; "ffmpeg.log"] = Some (FileE log) ∧
    String.words log =
    String.words
      ("ffmpeg -y -loglevel error -i /work/OinkTrack/C1D-1/raw_videos/s1/a.ts -c copy /tmp/s1_a.mp4 " +:+
       "ffmpeg -y -loglevel error -i /work/OinkTrack/C1D-1/raw_videos/s1/b.ts -c copy /tmp/s1_b.mp4 " +:+
       "ffmpeg -y -loglevel error -f concat -safe 0 -i /tmp/s1_cat.txt -c copy /tmp/s1_cat.mp4 " +:+
       "ffmpeg -y -loglevel error -i /tmp/s1_cat.mp4 -vf fps=1 /tmp/s1_1fps.mp4 " +:+
       "ffmpeg -y -loglevel error -i /work/OinkTrack/C1D-1/raw_videos/s2/c.ts -c copy /tmp/s2_c.mp4 " +:+
       "ffmpeg -y -loglevel error -f concat -safe 0 -i /tmp/s2_cat.txt -c copy /tmp/s2_cat.mp4 " +:+
       "ffmpeg -y -loglevel error -i /tmp/s2_cat.mp4 -vf fps=1 /tmp/s2_1fps.mp4 " +:+
       "ffmpeg -y -loglevel error -f concat -safe 0 -i /tmp/merged_1fps.txt -c copy /tmp/merged_1fps.mp4").
Proof. vm_compute. split; [reflexivity|]. eexists. split; reflexivity. Qed.

(** *** Validation *)

Lemma for_each_print {A} (f : A → string) l : ∀ w,
  for_each l (λ x, print (f x)) w =
  (Ok (), World (w_fs w) (w_out w ++ (f <$> l))).
Proof.
  induction l as [|x l IH]; intros [fs out]; simpl.
  - by rewrite app_nil_r.
  - unfold mbind, M_bind. simpl. rewrite IH. simpl.
    by rewrite <- app_assoc.
Qed.

Section validation.
Context {host : Host}.

Lemma check_sequence_nil fs seq :
  check_sequence fs seq = [] ↔ seq_ok fs seq = true.
Proof.
  unfold check_sequence, seq_ok.
  destruct (path_exists fs (p_child ROOT seq)); simpl; [|done].
  destruct (path_exists fs (p_child (p_child ROOT seq) "raw_videos"));
    simpl; [|done].
  destruct (rglob_nonempty fs _ ".ts"); simpl; [|done].
  destruct (path_exists fs _); simpl; done.
Qed.

Lemma check_sequences_nil fs seqs :
  check_sequences fs seqs = [] ↔ ∀ seq, seq ∈ seqs → seq_ok fs seq = true.
Proof.
  unfold check_sequences. induction seqs as [|s seqs IH].
  - split; [by intros _ ? ?%elem_of_nil|done].
  - rewrite bind_cons. split.
    + intros [H1 H2]%app_nil seq [->|Hin]%elem_of_cons.
      * by apply check_sequence_nil.
      * by apply IH.
    + intros Hall. apply app_nil. split.
      * apply check_sequence_nil, Hall. by left.
      * apply IH. intros seq Hin. apply Hall. by right.
Qed.

Lemma check_sequence_in fs seqs seq msg :
  seq ∈ seqs → msg ∈ check_sequence fs seq → msg ∈ check_sequences fs seqs.
Proof.
  intros Hin Hmsg. unfold check_sequences. apply list_elem_of_bind. eauto.
Qed.

End validation.

(** C5. [sanity_check] goes through every sequence of every split and
    reports every problem it checks for: the list is empty exactly when
    every sequence has its directory, a [raw_videos/] with a clip below
    it, and its annotation document; a missing directory, a missing
    [raw_videos/], a [raw_videos/] without clip and a missing annotation
    document of any sequence each put their line on the list, whatever
    the other sequences and the other checks give.  [main] then stops
    with the report and the exit message, the file system untouched, when
    the list is not empty, and goes on to the conversion when it is. *)
Theorem preflight_validation :
  (∀ (host : Host) fs seqs,
      check_sequences fs seqs = [] ↔
      ∀ seq, seq ∈ seqs → seq_ok fs seq = true) ∧
  (∀ (host : Host) fs seqs seq,
      seq ∈ seqs →
      let seq_dir := p_child ROOT seq in
      let raw_dir := p_child seq_dir "raw_videos" in
      let anno := p_child seq_dir "annotation.json" in
      let issues := check_sequences fs seqs in
      (path_exists fs seq_dir = false →
       (seq +:+ ": directory not found") ∈ issues) ∧
      (path_exists fs seq_dir = true → path_exists fs raw_dir = false →
       (seq +:+ ": missing raw_videos/") ∈ issues) ∧
      (path_exists fs seq_dir = true → path_exists fs raw_dir = true →
       rglob_nonempty fs raw_dir ".ts" = false →
       (seq +:+ ": no .ts clips found in raw_videos/") ∈ issues) ∧
      (path_exists fs seq_dir = true → path_exists fs anno = false →
       (seq +:+ ": missing annotation.json") ∈ issues)) ∧
  all_sequences = SPLIT ≫= snd ∧
  (∀ (host : Host) w,
      which_ffmpeg = true →
      let problems := check_sequences (w_fs w) all_sequences in
      (problems ≠ [] →
       main w = (Raise (SystemExit preflight_failure),
                 World (w_fs w) (w_out w ++ problem_report problems))) ∧
      (problems = [] → main w = convert_all w)).
Proof.
  split; [intros; apply check_sequences_nil|].
  split; [|split; [reflexivity|]].
  - intros host fs seqs seq Hin seq_dir raw_dir anno issues.
    repeat split.
    + intros He. apply (check_sequence_in _ _ seq); [done|].
      unfold check_sequence. fold seq_dir. rewrite He. simpl. by left.
    + intros He Hr. apply (check_sequence_in _ _ seq); [done|].
      unfold check_sequence. fold seq_dir raw_dir. rewrite He, Hr. simpl.
      by left.
    + intros He Hr Hg. apply (check_sequence_in _ _ seq); [done|].
      unfold check_sequence. fold seq_dir raw_dir. rewrite He, Hr, Hg. simpl.
      by left.
    + intros He Ha. apply (check_sequence_in _ _ seq); [done|].
      unfold check_sequence. fold seq_dir anno. rewrite He, Ha. simpl.
      apply elem_of_app. right. by left.
  - intros host w Hff problems.
    assert (main w =
            match problems with
            | [] => convert_all
            | _ :: _ =>
                print "=== Missing or invalid items ===";;
                for_each problems (λ p, print ("⚠️  " +:+ " " +:+ p));;
                raise (SystemExit preflight_failure)
            end w) as ->.
    { unfold main. rewrite Hff. subst problems. reflexivity. }
    clearbody problems. split.
    + intros Hne. destruct problems as [|p ps]; [done|].
      unfold mbind, M_bind. unfold print at 1. cbv beta iota zeta.
      rewrite (for_each_print (λ p, "⚠️  " +:+ " " +:+ p)). simpl.
      unfold raise. do 2 f_equal. unfold problem_report.
      by rewrite <- app_assoc.
    + by intros ->.
Qed.

(** *** Depth of the clip search *)

Lemma strip_prefix_app k rest : strip_prefix k (k ++ rest) = Some rest.
Proof.
  induction k as [|a k IH]; simpl; [by destruct rest|].
  by rewrite decide_True.
Qed.

Lemma collect_none {A B} (f : A → M (option B)) l w :
  (∀ x, x ∈ l → f x w = (Ok None, w)) →
  collect l f w = (Ok ((λ _, None) <$> l), w).
Proof.
  induction l as [|x l IH]; intros Hf; simpl; [done|].
  unfold mbind, M_bind. rewrite Hf by (by left).
  rewrite IH by (intros y Hy; apply Hf; by right). done.
Qed.

Lemma omap_id_none {A B} (l : list A) :
  omap id ((λ _, @None B) <$> l) = [].
Proof. induction l; simpl; done. Qed.

Section depth.
Context {host : Host}.

(** A clip at any depth below [raw_videos/] satisfies the check. *)
Lemma rglob_any_depth fs raw_dir (dirs : list string) name :
  (∀ i, (i ≤ length dirs)%nat →
        fs !! (resolve raw_dir ++ take i dirs) = Some DirE) →
  is_Some (fs !! (resolve raw_dir ++ dirs ++ [name])) →
  ends_with ".ts" name = true →
  rglob_nonempty fs raw_dir ".ts" = true.
Proof.
  intros Hdirs [v Hv] Hts. unfold rglob_nonempty, rglob_any.
  apply existsb_exists. exists (resolve raw_dir ++ dirs ++ [name]). split.
  - apply list_elem_of_In, list_elem_of_fmap.
    exists (resolve raw_dir ++ dirs ++ [name], v). split; [done|].
    by apply elem_of_map_to_list.
  - unfold below_matching. rewrite strip_prefix_app.
    destruct (dirs ++ [name]) as [|n rest] eqn:Hrest.
    { by destruct dirs. }
    rewrite <- Hrest. apply andb_true_intro. split.
    + by rewrite last_last.
    + apply forallb_forall. intros i Hi%in_seq.
      rewrite length_app in Hi. simpl in Hi.
      unfold fs_is_dir. apply bool_decide_eq_true.
      rewrite take_app_le by lia. apply Hdirs. lia.
Qed.

(** A segment without clip gives no video and runs nothing. *)
Lemma build_segment_empty tmp_dir seg w :
  glob (w_fs w) seg ".ts" = [] → build_segment tmp_dir seg w = (Ok None, w).
Proof.
  intros Hg. run_M build_segment.
  rewrite Hg. done.
Qed.

(** Clips are looked for in [raw_videos/] itself and in its immediate
    sub-directories only. *)
Lemma build_1fps_video_shallow raw_dir tmp_dir w :
  path_is_dir (w_fs w) raw_dir = true →
  (∀ seg, seg ∈ raw_dir :: scandir (w_fs w) raw_dir →
          glob (w_fs w) seg ".ts" = []) →
  build_1fps_video raw_dir tmp_dir w = (Ok None, w).
Proof.
  intros Hdir Hnone.
  unfold build_1fps_video, mbind, M_bind, get_fs, lift_res, iterdir. simpl.
  unfold path_is_dir, fs_is_dir in Hdir. apply bool_decide_eq_true in Hdir.
  rewrite Hdir. simpl.
  set (dirs := filter _ (scandir (w_fs w) raw_dir)).
  rewrite collect_none.
  - by rewrite omap_id_none.
  - intros seg Hseg. apply build_segment_empty, Hnone.
    rewrite sorted_paths_perm in Hseg.
    destruct dirs as [|d ds] eqn:Hd.
    + apply list_elem_of_singleton in Hseg as ->. by left.
    + right. rewrite <- Hd in Hseg. unfold dirs in Hseg.
      by apply list_elem_of_filter in Hseg as [_ ?].
Qed.

End depth.

(** C10. The check of [sanity_check] accepts a clip at any depth below
    [raw_videos/], the assembly collects clips in [raw_videos/] and in
    its immediate sub-directories only; with the only clip of each
    sequence two directories below [raw_videos/], validation finds
    nothing to report, the assembly gives no video, and the sequence is
    skipped with the message. *)
Theorem validation_deeper_than_assembly :
  (∀ (host : Host) fs raw_dir (dirs : list string) name,
      (∀ i, (i ≤ length dirs)%nat →
            fs !! (resolve raw_dir ++ take i dirs) = Some DirE) →
      is_Some (fs !! (resolve raw_dir ++ dirs ++ [name])) →
      ends_with ".ts" name = true →
      rglob_nonempty fs raw_dir ".ts" = true) ∧
  (∀ (host : Host) raw_dir tmp_dir w,
      path_is_dir (w_fs w) raw_dir = true →
      (∀ seg, seg ∈ raw_dir :: scandir (w_fs w) raw_dir →
              glob (w_fs w) seg ".ts" = []) →
      build_1fps_video raw_dir tmp_dir w = (Ok None, w)) ∧
  (let host := Demo.toy_host (λ _ l, l) in
   let w := World Demo.deep_fs [] in
   let raw_dir := ["/"; "work"; "OinkTrack"; "C1D-1"; "raw_videos"] in
   check_sequences Demo.deep_fs all_sequences = [] ∧
   build_1fps_video raw_dir ["/"; "tmp"; "td"] w = (Ok None, w) ∧
   (process_sequence "C1D-1" "train" w).1 = Ok () ∧
   w_out (process_sequence "C1D-1" "train" w).2 =
   ["❌  C1D-1: No video produced, skipping."]).
Proof.
  split; [intros; by eapply rglob_any_depth|].
  split; [intros; by apply build_1fps_video_shallow|].
  cbv zeta. repeat split; vm_compute; reflexivity.
Qed.

(** *** The descriptor *)

(** A run of the whole pipeline for one sequence on the small host: one
    segment of two clips, the document with frame records 0 and 2; the
    mask is missing.  The ground-truth table and the descriptor are
    written and the temporary directory is gone. *)
Example process_sequence_run :
  let host := Demo.toy_host (λ _ l, l) in
  let nl := String "010" "" in
  let '(r, w') := process_sequence "C1D-1" "train"
                    (World Demo.one_segment_fs []) in
  let dst_seq := ["/"; "work"; "dataset"; "train"; "C1D-1"] in
  r = Ok () ∧
  w_out w' = ["⚠️  Mask not found: /work/OinkTrack/masks/C1_mask.png"] ∧
  w_fs w' !! (dst_seq ++ ["gt"; "gt.txt"]) =
    Some (FileE ("1,2,10,20,40,60,1,1,1" +:+ nl +:+
                 "3,1,1,2,2,2,1,1,1" +:+ nl)) ∧
  w_fs w' !! (dst_seq ++ ["seqinfo.ini"]) =
    Some (FileE ("[Sequence]" +:+ nl +:+ "name=C1D-1" +:+ nl +:+
                 "imDir=img1" +:+ nl +:+ "frameRate=1" +:+ nl +:+
                 "seqLength=2" +:+ nl +:+ "imWidth=2" +:+ nl +:+
                 "imHeight=1" +:+ nl +:+ "imExt=.jpg" +:+ nl)) ∧
  w_fs w' !! ["/"; "tmp"; "td"] = None.
Proof. vm_compute. repeat split; reflexivity. Qed.

Section seqinfo.
Context {host : Host}.

Lemma resolve_child p n : n ≠ "/" → resolve (p_child p n) = resolve p ++ [n].
Proof.
  intros Hn. unfold resolve, p_child, is_absolute.
  destruct p as [|a p]; simpl.
  - rewrite bool_decide_eq_false_2 by congruence. by rewrite app_nil_r.
  - destruct (bool_decide (Some a = Some "/")); [done|by rewrite <- app_assoc].
Qed.

Lemma p_parent_child k n : n ≠ "/" → p_parent (k ++ [n]) = k.
Proof.
  intros Hn. unfold p_parent. rewrite decide_False.
  - apply removelast_last.
  - destruct k as [|a [|b k]]; simpl; congruence.
Qed.

Lemma p_name_child_ends suffix p n :
  ends_with suffix "" = false → ends_with suffix "/" = false →
  ends_with suffix (p_name (p_child p n)) = ends_with suffix n.
Proof.
  intros H1 H2. unfold p_name, p_child.
  destruct (decide (p ++ [n] = ["/"])) as [E|E].
  - destruct p as [|a [|b p]]; simplify_eq/=. congruence.
  - by rewrite last_last.
Qed.

Lemma length_filter_fmap {A B} (f : A → B) (P : B → Prop) (Q : A → Prop)
    `{!∀ x, Decision (P x), !∀ x, Decision (Q x)} (l : list A) :
  (∀ x, P (f x) ↔ Q x) →
  length (filter P (f <$> l)) = length (filter Q l).
Proof.
  intros HPQ. induction l as [|x l IH]; [done|].
  rewrite fmap_cons, !filter_cons.
  destruct (decide (P (f x))) as [HP|HP], (decide (Q x)) as [HQ|HQ];
    simpl; try (by rewrite IH); by apply HPQ in HP || by apply HPQ in HQ.
Qed.

(** The frames [glob] finds are as many as the frame files on disk. *)
Lemma glob_jpg_length fs seq_path :
  (∀ p l, scandir_order p l ≡ₚ l) →
  length (glob fs (p_child seq_path "img1") ".jpg") = frame_count fs seq_path.
Proof.
  intros Hperm. unfold glob, frame_count, scandir.
  destruct (path_is_dir fs (p_child seq_path "img1")); [|done].
  rewrite (length_filter_fmap _ _ (λ n, ends_with ".jpg" n = true)).
  - by rewrite Hperm.
  - intros n. by rewrite p_name_child_ends.
Qed.

Lemma write_seqinfo_cases w seq_path :
  let img1 := p_child seq_path "img1" in
  let imgs := sorted_paths (glob (w_fs w) img1 ".jpg") in
  write_seqinfo seq_path w =
  match imgs with
  | [] => (Raise (RuntimeError ("No frames found in " +:+ path_str img1)), w)
  | first :: _ =>
      match imread (w_fs w) first with
      | None => (Raise AttributeError, w)
      | Some img =>
          write_text (p_child seq_path "seqinfo.ini")
            (seqinfo_text (p_name seq_path) (length imgs)
                          (shape2 img).1 (shape2 img).2) w
      end
  end.
Proof.
  intros img1 imgs. run_M write_seqinfo.
  fold img1. fold imgs. destruct imgs as [|first rest]; [done|].
  destruct (imread (w_fs w) first) as [img|]; [|done].
  by destruct (shape2 img).
Qed.

Lemma write_text_ok w p s :
  w_fs w !! p_parent (resolve p) = Some DirE →
  w_fs w !! resolve p ≠ Some DirE →
  write_text p s w =
  (Ok (), World (<[resolve p := FileE s]> (w_fs w)) (w_out w)).
Proof.
  intros Hpar Hp.
  unfold write_text, lift_fs, mbind, M_bind, get_fs, lift_res, write_file.
  simpl. rewrite Hpar.
  destruct (w_fs w !! resolve p) as [[data|]|]; done.
Qed.

End seqinfo.

(** C4, as amended.  [write_seqinfo] raises when [img1/] holds no frame
    file, and also when the first frame file in sorted order cannot be
    read; when that frame can be read (and the sequence directory can
    take the file) it writes a descriptor whose [seqLength] is the number
    of frame files found in [img1/] and whose width and height are those
    of the first frame. *)
Theorem write_seqinfo_descriptor (host : Host) w seq_path :
  (∀ p l, scandir_order p l ≡ₚ l) →
  let img1 := p_child seq_path "img1" in
  let imgs := sorted_paths (glob (w_fs w) img1 ".jpg") in
  let n := frame_count (w_fs w) seq_path in
  length imgs = n ∧
  (n = 0%nat →
   write_seqinfo seq_path w =
   (Raise (RuntimeError ("No frames found in " +:+ path_str img1)), w)) ∧
  (∀ first,
      head imgs = Some first → imread (w_fs w) first = None →
      write_seqinfo seq_path w = (Raise AttributeError, w)) ∧
  (∀ first img,
      head imgs = Some first → imread (w_fs w) first = Some img →
      path_is_dir (w_fs w) seq_path = true →
      path_is_dir (w_fs w) (p_child seq_path "seqinfo.ini") = false →
      write_seqinfo seq_path w =
      (Ok (),
       World (<[resolve (p_child seq_path "seqinfo.ini") :=
                  FileE (seqinfo_text (p_name seq_path) n
                                      (shape2 img).1 (shape2 img).2)]>
                (w_fs w))
             (w_out w))).
Proof.
  intros Hperm img1 imgs n.
  assert (length imgs = n) as Hlen.
  { unfold imgs. rewrite sorted_paths_perm. by apply glob_jpg_length. }
  pose proof (write_seqinfo_cases w seq_path) as Hcases.
  cbv zeta in Hcases. fold img1 in Hcases. fold imgs in Hcases.
  split; [done|]. split; [|split].
  - intros Hn. rewrite Hcases.
    destruct imgs as [|first rest]; [done|]. simpl in Hlen. lia.
  - intros first Hhd Him. rewrite Hcases.
    destruct imgs as [|first' rest]; simplify_eq/=. by rewrite Him.
  - intros first img Hhd Him Hdir Hini. rewrite Hcases.
    destruct imgs as [|first' rest] eqn:Himgs; simplify_eq/=. rewrite Him.
    rewrite <- Hlen. apply write_text_ok.
    + rewrite resolve_child, p_parent_child by done.
      unfold path_is_dir, fs_is_dir in Hdir.
      by apply bool_decide_eq_true in Hdir.
    + unfold path_is_dir, fs_is_dir in Hini.
      by apply bool_decide_eq_false in Hini.
Qed.

Lemma write_seqinfo_descriptor_witness :
  let host := Demo.toy_host (λ _ l, l) in
  let fs := Demo.frames_fs [("00000002.jpg", "cd"); ("00000001.jpg", "ab")] in
  let seq_path := ["dataset"; "train"; "C1D-1"] in
  write_seqinfo seq_path (World fs []) =
  (Ok (),
   World (<[["/"; "work"; "dataset"; "train"; "C1D-1"; "seqinfo.ini"] :=
              FileE (seqinfo_text "C1D-1" 2 1 2)]> fs) []).
Proof.
  intros host fs seq_path.
  refine (proj2 (proj2 (proj2
    (write_seqinfo_descriptor host (World fs []) seq_path _)))
    (p_child (p_child seq_path "img1") "00000001.jpg")
    [[[97; 97; 97]; [98; 98; 98]]] _ _ _ _).
  - intros p l. reflexivity.
  - vm_compute. reflexivity.
  - vm_compute. reflexivity.
  - vm_compute. reflexivity.
  - vm_compute. reflexivity.
Defined.

(** C4 as stated fails: a frame directory that holds one frame file,
    which does not decode, makes [write_seqinfo] raise although the
    directory is not empty. *)
Lemma write_seqinfo_raises_on_unreadable_frame :
  let host := Demo.toy_host (λ _ l, l) in
  let w := World (Demo.frames_fs [("00000001.jpg", "")]) [] in
  let seq_path := ["dataset"; "train"; "C1D-1"] in
  frame_count (w_fs w) seq_path = 1%nat ∧
  write_seqinfo seq_path w = (Raise AttributeError, w).
Proof. split; vm_compute; reflexivity. Qed.

End ScriptFacts.

(** ** The ground-truth table on disk *)

Module TableFacts.
Import Py SupToMot SupToMotFacts Img Fs Script.

Lemma write_file_Ok fs k data fs' :
  write_file fs k data = Ok fs' →
  fs' = <[k := FileE data]> fs ∧
  fs !! p_parent k = Some DirE ∧ fs !! k ≠ Some DirE.
Proof.
  unfold write_file. intros H.
  destruct (fs !! k) as [[d|]|] eqn:Hk;
    destruct (fs !! p_parent k) as [[d'|]|]; by simplify_eq.
Qed.

Lemma write_file_again fs k data fs' :
  write_file fs k data = Ok fs' → write_file fs' k data = Ok fs'.
Proof.
  intros (-> & Hpar & Hk)%write_file_Ok. unfold write_file.
  rewrite lookup_insert_eq.
  assert (p_parent k ≠ k) as Hne by (intros E; rewrite E in Hpar; done).
  rewrite lookup_insert_ne, Hpar by done. by rewrite insert_insert_eq.
Qed.

(** A file whose directory is there and which is not itself a directory
    can be opened for writing. *)
Lemma write_file_open (fs : gmap path entry) k data :
  fs !! p_parent k = Some DirE → fs !! k ≠ Some DirE →
  write_file fs k data = Ok (<[k := FileE data]> fs).
Proof.
  intros Hpar Hk. unfold write_file. rewrite Hpar.
  by destruct (fs !! k) as [[d|]|].
Qed.

Lemma string_app_nil_r (s : string) : s +:+ "" = s.
Proof.
  induction s as [|c s IH]; [done|].
  change (String c (s +:+ "") = String c s). by rewrite IH.
Qed.

(** The text of the table is its lines one after the other. *)
Lemma gt_text_lines rows :
  gt_text rows = String.concat "" (mot_line <$> rows).
Proof.
  induction rows as [|r rows IH]; [done|].
  change (gt_text (r :: rows)) with (mot_line r +:+ gt_text rows).
  rewrite IH. destruct rows as [|r' rows]; [|reflexivity].
  apply string_app_nil_r.
Qed.

Section table.
Context {host : Host}.

(** [sup_to_mot] step by step. *)
Lemma sup_to_mot_unfold json_path txt_out w :
  sup_to_mot json_path txt_out w =
  match read_file (w_fs w) (resolve json_path) with
  | Raise e => (Raise e, w)
  | Ok text =>
      match json_loads text with
      | Raise e => (Raise e, w)
      | Ok data =>
          match write_file (w_fs w) (resolve txt_out)
                           (gt_text (sup_to_mot_rows data).1) with
          | Raise e => (Raise e, w)
          | Ok fs' =>
              (match (sup_to_mot_rows data).2 with
               | None => Ok ()
               | Some e => Raise e
               end, World fs' (w_out w))
          end
      end
  end.
Proof.
  unfold sup_to_mot, mbind, M_bind, get_fs, lift_res. simpl.
  destruct (read_file _ _) as [text|e]; [|done].
  destruct (json_loads text) as [data|e]; [|done].
  destruct (sup_to_mot_rows data) as [rows err]. simpl.
  unfold write_text, lift_fs, mbind, M_bind, get_fs, lift_res. simpl.
  destruct (write_file _ _ _) as [fs'|e]; [|done]. simpl.
  by destruct err.
Qed.

(** A run on a document that was read and decoded, into a file that can
    be opened. *)
Lemma sup_to_mot_written json_path txt_out w text data :
  read_file (w_fs w) (resolve json_path) = Ok text →
  json_loads text = Ok data →
  w_fs w !! p_parent (resolve txt_out) = Some DirE →
  w_fs w !! resolve txt_out ≠ Some DirE →
  sup_to_mot json_path txt_out w =
  (match (sup_to_mot_rows data).2 with
   | None => Ok ()
   | Some e => Raise e
   end,
   World (<[resolve txt_out :=
              FileE (String.concat "" (mot_line <$> (sup_to_mot_rows data).1))]>
            (w_fs w)) (w_out w)).
Proof.
  intros Hread Hjson Hpar Hk.
  rewrite sup_to_mot_unfold, Hread, Hjson, write_file_open by done.
  by rewrite gt_text_lines.
Qed.

End table.

(** C3. For every document that is read and decoded, and whenever
    [gt.txt] can be opened, [sup_to_mot] leaves in [gt.txt] exactly the
    lines [frame,id,left,top,width,height,1,1,1] of the rows it computed,
    and these are, in document order (frame records in order, figures of
    a record in order), the rows of the figures: one per figure, with
    frame field the record's index plus one, the identity-map entry of
    the figure's object id, and [1,1,1] at the end.  It returns normally
    with one row per figure, or raises where the loops stop, the rows
    written until then left in the file; the identity map has an entry for
    every figure, and on a document with integer indices and integer
    corners it always returns normally.  The document with frame records 0
    and 2 holding one figure each, with object ids 7 and 3, gives the map
    [{3:1, 7:2}] and the rows of frame 1 (id 2) and frame 3 (id 1), which
    for the corners [(50,80),(10,20)] and [(1,2),(3,4)] are the lines
    [1,2,10,20,40,60,1,1,1] and [3,1,1,2,2,2,1,1,1]. *)
Theorem sup_to_mot_table_document_order :
  let nl := String "010" "" in
  let line := λ r : row,
    pretty (r_frame r) +:+ "," +:+ pretty (r_id r) +:+ "," +:+
    pretty (r_left r) +:+ "," +:+ pretty (r_top r) +:+ "," +:+
    pretty (r_width r) +:+ "," +:+ pretty (r_height r) +:+ "," +:+
    pretty (r_conf r) +:+ "," +:+ pretty (r_class r) +:+ "," +:+
    pretty (r_vis r) +:+ nl in
  (∀ (host : Host) json_path txt_out w text data,
      read_file (w_fs w) (resolve json_path) = Ok text →
      json_loads text = Ok data →
      w_fs w !! p_parent (resolve txt_out) = Some DirE →
      w_fs w !! resolve txt_out ≠ Some DirE →
      ∃ rows r,
        sup_to_mot json_path txt_out w =
        (r, World (<[resolve txt_out :=
                       FileE (String.concat "" (line <$> rows))]> (w_fs w))
                  (w_out w)) ∧
        Forall2 (row_of_figure (id_map data))
                (take (length rows) (doc_figures data)) rows ∧
        match r with
        | Ok _ => length rows = length (doc_figures data)
        | Raise e => stops_at (id_map data) data (length rows) e
        end) ∧
  (∀ data fr fig,
      (fr, fig) ∈ doc_figures data →
      is_Some (id_map data !! objectId fig)) ∧
  (∀ (host : Host) json_path txt_out w text data,
      read_file (w_fs w) (resolve json_path) = Ok text →
      json_loads text = Ok data →
      w_fs w !! p_parent (resolve txt_out) = Some DirE →
      w_fs w !! resolve txt_out ≠ Some DirE →
      Forall (λ fr, int_index fr = true) data →
      Forall (λ p, int_box p.2 = true) (doc_figures data) →
      ∃ rows,
        sup_to_mot json_path txt_out w =
        (Ok (), World (<[resolve txt_out :=
                           FileE (String.concat "" (line <$> rows))]> (w_fs w))
                      (w_out w)) ∧
        Forall2 (row_of_figure (id_map data)) (doc_figures data) rows) ∧
  (∀ a1 b1 a2 b2 c1 d1 c2 d2,
      let data :=
        [Frame 0 [Figure 7 [[PyInt a1; PyInt b1]; [PyInt a2; PyInt b2]]];
         Frame 2 [Figure 3 [[PyInt c1; PyInt d1]; [PyInt c2; PyInt d2]]]] in
      id_map data = <[7 := 2]> (<[3 := 1]> ∅) ∧
      sup_to_mot_rows data =
      ([Row 1 2 (Z.min a1 a2) (Z.min b1 b2)
            (Z.abs (a2 - a1)) (Z.abs (b2 - b1)) 1 1 1;
        Row 3 1 (Z.min c1 c2) (Z.min d1 d2)
            (Z.abs (c2 - c1)) (Z.abs (d2 - d1)) 1 1 1], None)) ∧
  (∀ (host : Host) json_path txt_out w text,
      read_file (w_fs w) (resolve json_path) = Ok text →
      json_loads text =
        Ok [Frame 0 [Figure 7 [[PyInt 50; PyInt 80]; [PyInt 10; PyInt 20]]];
            Frame 2 [Figure 3 [[PyInt 1; PyInt 2]; [PyInt 3; PyInt 4]]]] →
      w_fs w !! p_parent (resolve txt_out) = Some DirE →
      w_fs w !! resolve txt_out ≠ Some DirE →
      sup_to_mot json_path txt_out w =
      (Ok (), World (<[resolve txt_out :=
                         FileE ("1,2,10,20,40,60,1,1,1" +:+ nl +:+
                                "3,1,1,2,2,2,1,1,1" +:+ nl)]> (w_fs w))
                    (w_out w))).
Proof.
  intros nl line.
  assert (Hgen : ∀ (host : Host) json_path txt_out w text data,
    read_file (w_fs w) (resolve json_path) = Ok text →
    json_loads text = Ok data →
    w_fs w !! p_parent (resolve txt_out) = Some DirE →
    w_fs w !! resolve txt_out ≠ Some DirE →
    ∃ rows err,
      sup_to_mot_rows data = (rows, err) ∧
      sup_to_mot json_path txt_out w =
      (match err with None => Ok () | Some e => Raise e end,
       World (<[resolve txt_out :=
                  FileE (String.concat "" (line <$> rows))]> (w_fs w))
             (w_out w))).
  { intros host json_path txt_out w text data Hread Hjson Hpar Hk.
    destruct (sup_to_mot_rows data) as [rows err] eqn:Hrows.
    exists rows, err. split; [done|].
    rewrite (sup_to_mot_written _ _ _ text data), Hrows by done. done. }
  split; [|split; [|split; [|split]]].
  - intros host json_path txt_out w text data Hread Hjson Hpar Hk.
    destruct (Hgen host json_path txt_out w text data)
      as (rows & err & Hrows & Hrun); [done..|].
    apply sup_to_mot_rows_spec in Hrows as [HF Herr].
    exists rows, (match err with None => Ok () | Some e => Raise e end).
    split; [done|]. split; [done|]. by destruct err.
  - intros data fr fig Hin. by eapply doc_figures_id_map.
  - intros host json_path txt_out w text data Hread Hjson Hpar Hk Hidx Hbox.
    destruct (Hgen host json_path txt_out w text data)
      as (rows & err & Hrows & Hrun); [done..|].
    destruct (sup_to_mot_rows_int data Hidx Hbox) as [rows' Hrows'].
    rewrite Hrows in Hrows'. injection Hrows' as <- ->.
    apply sup_to_mot_rows_spec in Hrows as [HF Herr].
    rewrite Herr, firstn_all in HF. by exists rows.
  - intros a1 b1 a2 b2 c1 d1 c2 d2. apply two_frames_rows.
  - intros host json_path txt_out w text Hread Hjson Hpar Hk.
    destruct (Hgen host json_path txt_out w text _ Hread Hjson Hpar Hk)
      as (rows & err & Hrows & Hrun).
    destruct (two_frames_rows 50 80 10 20 1 2 3 4) as [_ Hrows'].
    cbv zeta in Hrows'. rewrite Hrows in Hrows'.
    injection Hrows' as -> ->. exact Hrun.
Qed.

Lemma sup_to_mot_table_document_order_witness :
  let host := Demo.toy_host (λ _ l, l) in
  let anno := ["/"; "work"; "OinkTrack"; "C1D-1"; "annotation.json"] in
  let gt := ["/"; "work"; "OinkTrack"; "gt.txt"] in
  let nl := String "010" "" in
  sup_to_mot anno gt (World Demo.one_segment_fs []) =
  (Ok (), World (<[gt := FileE ("1,2,10,20,40,60,1,1,1" +:+ nl +:+
                                "3,1,1,2,2,2,1,1,1" +:+ nl)]>
                   Demo.one_segment_fs) []).
Proof.
  intros host anno gt nl.
  apply (proj2 (proj2 (proj2 (proj2 sup_to_mot_table_document_order)))
           host anno gt (World Demo.one_segment_fs []) "doc").
  - vm_compute. reflexivity.
  - reflexivity.
  - vm_compute. reflexivity.
  - vm_compute. discriminate.
Defined.

End TableFacts.

(** * Further properties of the script *)

(** ** Identities and boxes in the ground-truth table *)

Module TrackFacts.
Import Py SupToMot SupToMotFacts.

Lemma id_map_range data oid d :
  id_map data !! oid = Some d → 1 ≤ d ≤ Z.of_nat (size (object_id_set data)).
Proof.
  intros (i & Hi & ->)%id_map_spec. apply lookup_lt_Some in Hi.
  rewrite object_ids_length in Hi. lia.
Qed.

Lemma id_map_inj data o1 o2 d :
  id_map data !! o1 = Some d → id_map data !! o2 = Some d → o1 = o2.
Proof.
  intros (i1 & Hi1 & ->)%id_map_spec (i2 & Hi2 & E)%id_map_spec.
  assert (i1 = i2) as -> by lia. congruence.
Qed.

Lemma id_map_onto data d :
  1 ≤ d ≤ Z.of_nat (size (object_id_set data)) →
  ∃ oid, oid ∈ object_id_set data ∧ id_map data !! oid = Some d.
Proof.
  intros Hd.
  destruct (lookup_lt_is_Some_2 (object_ids data) (Z.to_nat (d - 1)))
    as [oid Hoid]; [rewrite object_ids_length; lia|].
  exists oid. split.
  - apply elem_of_object_ids. by eapply list_elem_of_lookup_2.
  - apply id_map_spec. exists (Z.to_nat (d - 1)). split; [done|lia].
Qed.

(** The row at position [i] belongs to the figure at position [i]. *)
Lemma rows_lookup data rows err i r :
  sup_to_mot_rows data = (rows, err) → rows !! i = Some r →
  ∃ fr fig, doc_figures data !! i = Some (fr, fig) ∧
            row_of_figure (id_map data) (fr, fig) r.
Proof.
  intros [HF _]%sup_to_mot_rows_spec Hr.
  destruct (Forall2_lookup_r _ _ _ _ _ HF Hr) as ([fr fig] & Hi & Hrow).
  apply lookup_take_Some in Hi as [Hi _]. eauto.
Qed.

(** X1. Two rows of the table carry the same id exactly when their
    figures carry the same object id: an object keeps its identity over
    the frames and no two objects share one. *)
Theorem rows_same_id_iff_same_object data rows err i j fr1 fig1 fr2 fig2 r1 r2 :
  sup_to_mot_rows data = (rows, err) →
  doc_figures data !! i = Some (fr1, fig1) → rows !! i = Some r1 →
  doc_figures data !! j = Some (fr2, fig2) → rows !! j = Some r2 →
  r_id r1 = r_id r2 ↔ objectId fig1 = objectId fig2.
Proof.
  intros Hrun Hf1 Hr1 Hf2 Hr2.
  destruct (rows_lookup _ _ _ _ _ Hrun Hr1) as (fr1' & fig1' & Hf1' & Hrow1).
  destruct (rows_lookup _ _ _ _ _ Hrun Hr2) as (fr2' & fig2' & Hf2' & Hrow2).
  simplify_eq.
  destruct Hrow1 as (i1 & _ & _ & _ & Hid1 & _).
  destruct Hrow2 as (i2 & _ & _ & _ & Hid2 & _).
  simpl in *. split.
  - intros E. rewrite E in Hid1. by eapply id_map_inj.
  - intros E. rewrite E in Hid1. congruence.
Qed.

Lemma rows_same_id_iff_same_object_witness :
  let fig1 := Figure 7 [[PyInt 50; PyInt 80]; [PyInt 10; PyInt 20]] in
  let fig2 := Figure 3 [[PyInt 1; PyInt 2]; [PyInt 3; PyInt 4]] in
  let fig3 := Figure 7 [[PyInt 52; PyInt 80]; [PyInt 12; PyInt 20]] in
  let r1 := Row 1 2 10 20 40 60 1 1 1 in
  let r2 := Row 1 1 1 2 2 2 1 1 1 in
  let r3 := Row 6 2 12 20 40 60 1 1 1 in
  (r_id r1 = r_id r3 ↔ objectId fig1 = objectId fig3) ∧
  (r_id r1 = r_id r2 ↔ objectId fig1 = objectId fig2).
Proof.
  intros fig1 fig2 fig3 r1 r2 r3.
  pose (data := [Frame 0 [fig1; fig2]; Frame 5 [fig3]]).
  split.
  - apply (rows_same_id_iff_same_object data [r1; r2; r3] None 0 2
             (Frame 0 [fig1; fig2]) fig1 (Frame 5 [fig3]) fig3 r1 r3);
      vm_compute; reflexivity.
  - apply (rows_same_id_iff_same_object data [r1; r2; r3] None 0 1
             (Frame 0 [fig1; fig2]) fig1 (Frame 0 [fig1; fig2]) fig2 r1 r2);
      vm_compute; reflexivity.
Defined.

(** X2. When the conversion runs to its end, the ids in the table are
    exactly the numbers from 1 to the number of distinct object ids:
    none is skipped and none lies outside. *)
Theorem rows_use_every_dense_id data rows :
  sup_to_mot_rows data = (rows, None) →
  ∀ d, 1 ≤ d ≤ Z.of_nat (size (object_id_set data)) ↔
       ∃ r, r ∈ rows ∧ r_id r = d.
Proof.
  intros Hrun d. split.
  - intros (oid & Hin & Hd)%id_map_onto.
    apply elem_of_object_id_set in Hin as (fr & fig & Hfr & Hfig & <-).
    assert ((fr, fig) ∈ doc_figures data) as Hdoc.
    { unfold doc_figures. apply list_elem_of_bind. exists fr. split; [|done].
      apply list_elem_of_fmap. eauto. }
    apply list_elem_of_lookup in Hdoc as [i Hi].
    pose proof Hrun as [HF Hlen]%sup_to_mot_rows_spec.
    rewrite Hlen, firstn_all in HF.
    destruct (Forall2_lookup_l _ _ _ _ _ HF Hi)
      as (r & Hr & i' & _ & _ & _ & Hid & _).
    exists r. split; [by eapply list_elem_of_lookup_2|].
    simpl in Hid. congruence.
  - intros (r & [i Hr]%list_elem_of_lookup & <-).
    destruct (rows_lookup _ _ _ _ _ Hrun Hr)
      as (fr & fig & _ & i' & _ & _ & _ & Hid & _).
    by eapply id_map_range.
Qed.

Lemma rows_use_every_dense_id_witness :
  1 ≤ 2 ≤ Z.of_nat (size (object_id_set Demo.toy_document)) ↔
  ∃ r, r ∈ [Row 1 2 10 20 40 60 1 1 1; Row 3 1 1 2 2 2 1 1 1] ∧ r_id r = 2.
Proof.
  apply (rows_use_every_dense_id Demo.toy_document
           [Row 1 2 10 20 40 60 1 1 1; Row 3 1 1 2 2 2 1 1 1]).
  vm_compute. reflexivity.
Defined.

(** X3. With integer corners the box of a row spans exactly from the
    smaller to the larger coordinate on each axis, so both corners are
    recovered from the row; a box without extent on an axis is written
    all the same, with width or height zero. *)
Theorem figure_row_spans_corners idm fidx oid a1 b1 a2 b2 r :
  figure_row idm fidx
    (Figure oid [[PyInt a1; PyInt b1]; [PyInt a2; PyInt b2]]) = Ok r →
  r_left r = Z.min a1 a2 ∧ r_left r + r_width r = Z.max a1 a2 ∧
  r_top r = Z.min b1 b2 ∧ r_top r + r_height r = Z.max b1 b2 ∧
  (r_width r = 0 ↔ a1 = a2) ∧ (r_height r = 0 ↔ b1 = b2).
Proof.
  intros Hrow. pose proof Hrow as Hinv.
  apply figure_row_inv in Hinv
    as (? & ? & ? & ? & ? & ? & _ & _ & _ & Hid & _).
  simpl in Hid. rewrite (figure_row_int _ _ _ _ _ _ _ _ Hid) in Hrow.
  injection Hrow as <-. simpl. lia.
Qed.

Lemma figure_row_spans_corners_witness :
  let r := Row 1 2 10 20 40 0 1 1 1 in
  r_left r = Z.min 50 10 ∧ r_left r + r_width r = Z.max 50 10 ∧
  r_top r = Z.min 20 20 ∧ r_top r + r_height r = Z.max 20 20 ∧
  (r_width r = 0 ↔ 50 = 10) ∧ (r_height r = 0 ↔ 20 = 20).
Proof.
  intros r.
  apply (figure_row_spans_corners (<[7 := 2]> ∅) 1 7 50 20 10 20 r).
  vm_compute. reflexivity.
Defined.

End TrackFacts.

(** ** The stages of the pipeline on the file system *)

Module StageFacts.
Import Py SupToMot SupToMotFacts Img Fs Script Notions PathFacts ScriptFacts.
Import TableFacts.

(** A run whose result is known ends in the world it ends in. *)
Lemma result_only {A} (x : res A * world) (r : res A) :
  x.1 = r → x = (r, x.2).
Proof. destruct x. simpl. by intros ->. Qed.

Ltac run_result :=
  lazymatch goal with
  | |- ?x = (?r, _) => refine (result_only x r _); vm_compute; reflexivity
  end.

(** X4. Whatever [sup_to_mot] does, it prints nothing.  When it returns
    normally, [gt.txt] holds one line for every figure of the decoded
    document.  When it raises, either no file was touched (the
    annotation could not be read or decoded, or [gt.txt] could not be
    opened), or the loops stopped, at a figure whose row cannot be
    computed or at a frame record whose index cannot be read, and
    [gt.txt] was replaced by the lines of the figures that come before
    that place.  A figure without its box in the second of two frame
    records is of the latter kind: the row of the first record is all
    that [gt.txt] holds. *)
Theorem sup_to_mot_outcome (host : Host) json_path txt_out w r w' :
  sup_to_mot json_path txt_out w = (r, w') →
  w_out w' = w_out w ∧
  match r with
  | Ok _ =>
      ∃ text data rows,
        read_file (w_fs w) (resolve json_path) = Ok text ∧
        json_loads text = Ok data ∧
        sup_to_mot_rows data = (rows, None) ∧
        length rows = length (doc_figures data) ∧
        w_fs w' = <[resolve txt_out := FileE (gt_text rows)]> (w_fs w)
  | Raise e =>
      (w_fs w' = w_fs w ∧
       (read_file (w_fs w) (resolve json_path) = Raise e ∨
        (∃ text, read_file (w_fs w) (resolve json_path) = Ok text ∧
                 json_loads text = Raise e) ∨
        w_fs w !! resolve txt_out = Some DirE ∨
        w_fs w !! p_parent (resolve txt_out) ≠ Some DirE)) ∨
      ∃ text data rows,
        read_file (w_fs w) (resolve json_path) = Ok text ∧
        json_loads text = Ok data ∧
        sup_to_mot_rows data = (rows, Some e) ∧
        stops_at (id_map data) data (length rows) e ∧
        Forall2 (row_of_figure (id_map data))
                (take (length rows) (doc_figures data)) rows ∧
        w_fs w' = <[resolve txt_out := FileE (gt_text rows)]> (w_fs w)
  end.
Proof.
  rewrite sup_to_mot_unfold.
  destruct (read_file _ _) as [text|e] eqn:Hread;
    [|intros [= <- <-]; auto].
  destruct (json_loads text) as [data|e] eqn:Hjson;
    [|intros [= <- <-]; split; [done|]; left; split; [done|]; eauto].
  destruct (write_file _ _ _) as [fs'|e] eqn:Hw.
  2:{ intros [= <- <-]. split; [done|]. left. split; [done|].
      right. right. unfold write_file in Hw.
      destruct (w_fs w !! resolve txt_out) as [[d|]|]; [|by left|];
        right; intros Hpar; by rewrite Hpar in Hw. }
  apply write_file_Ok in Hw as (-> & _ & _).
  destruct (sup_to_mot_rows data) as [rows err] eqn:Hrows. simpl.
  pose proof (sup_to_mot_rows_spec _ _ _ Hrows) as [HF Herr].
  destruct err as [e|]; intros [= <- <-]; (split; [done|]); simpl.
  - right. by exists text, data, rows.
  - by exists text, data, rows.
Qed.

Lemma sup_to_mot_outcome_witness :
  let host := Demo.toy_host (λ _ l, l) in
  let anno := ["/"; "work"; "OinkTrack"; "C1D-1"; "annotation.json"] in
  let gt := ["/"; "work"; "OinkTrack"; "gt.txt"] in
  let w := World (<[anno := FileE "cut"]> Demo.one_segment_fs) [] in
  let w' := (sup_to_mot anno gt w).2 in
  let e := KeyError in
  w_out w' = w_out w ∧
  ((w_fs w' = w_fs w ∧
    (read_file (w_fs w) (resolve anno) = Raise e ∨
     (∃ text, read_file (w_fs w) (resolve anno) = Ok text ∧
              json_loads text = Raise e) ∨
     w_fs w !! resolve gt = Some DirE ∨
     w_fs w !! p_parent (resolve gt) ≠ Some DirE)) ∨
   ∃ text data rows,
     read_file (w_fs w) (resolve anno) = Ok text ∧
     json_loads text = Ok data ∧
     sup_to_mot_rows data = (rows, Some e) ∧
     stops_at (id_map data) data (length rows) e ∧
     Forall2 (row_of_figure (id_map data))
             (take (length rows) (doc_figures data)) rows ∧
     w_fs w' = <[resolve gt := FileE (gt_text rows)]> (w_fs w)).
Proof.
  intros host anno gt w w' e.
  apply (sup_to_mot_outcome host anno gt w (Raise e) w').
  run_result.
Defined.

(** The two ways the loops stop after the file is open: a figure without
    its box leaves the row written before it, and a frame record without
    index ends the run even when it has no figure. *)
Example sup_to_mot_stops_after_open :
  let host := Demo.toy_host (λ _ l, l) in
  let anno := ["/"; "work"; "OinkTrack"; "C1D-1"; "annotation.json"] in
  let gt := ["/"; "work"; "OinkTrack"; "gt.txt"] in
  let nl := String "010" "" in
  let run doc := sup_to_mot anno gt
                   (World (<[anno := FileE doc]> Demo.one_segment_fs) []) in
  (run "cut").1 = Raise KeyError ∧
  w_fs (run "cut").2 !! gt = Some (FileE ("1,2,10,20,40,60,1,1,1" +:+ nl)) ∧
  (run "bare").1 = Raise KeyError ∧
  w_fs (run "bare").2 !! gt = Some (FileE ("1,1,10,20,40,60,1,1,1" +:+ nl)).
Proof. repeat split; vm_compute; reflexivity. Qed.

(** X5. [sup_to_mot] replaces [gt.txt] whatever it held, so a second run
    with the same arguments ends like the first and changes nothing
    more, provided the table is not written over the annotation. *)
Theorem sup_to_mot_rerun (host : Host) json_path txt_out w r w1 :
  resolve json_path ≠ resolve txt_out →
  sup_to_mot json_path txt_out w = (r, w1) →
  sup_to_mot json_path txt_out w1 = (r, w1).
Proof.
  intros Hne. rewrite !sup_to_mot_unfold.
  destruct (read_file (w_fs w) _) as [text|e] eqn:Hread.
  2:{ intros [= <- <-]. by rewrite Hread. }
  destruct (json_loads text) as [data|e] eqn:Hjson.
  2:{ intros [= <- <-]. by rewrite Hread, Hjson. }
  destruct (write_file (w_fs w) _ _) as [fs'|e] eqn:Hw.
  2:{ intros [= <- <-]. by rewrite Hread, Hjson, Hw. }
  intros [= <- <-]. simpl.
  pose proof (write_file_again _ _ _ _ Hw) as Hw2.
  apply write_file_Ok in Hw as (Hfs & _ & _).
  assert (read_file fs' (resolve json_path) = Ok text) as ->.
  { unfold read_file in *. by rewrite Hfs, lookup_insert_ne. }
  by rewrite Hjson, Hw2.
Qed.

Lemma sup_to_mot_rerun_witness :
  let host := Demo.toy_host (λ _ l, l) in
  let anno := ["/"; "work"; "OinkTrack"; "C1D-1"; "annotation.json"] in
  let gt := ["/"; "work"; "OinkTrack"; "gt.txt"] in
  let w1 := (sup_to_mot anno gt (World Demo.one_segment_fs [])).2 in
  sup_to_mot anno gt w1 = (Ok (), w1).
Proof.
  intros host anno gt w1.
  apply (sup_to_mot_rerun host anno gt (World Demo.one_segment_fs [])).
  - vm_compute. discriminate.
  - run_result.
Defined.

Section concat.
Context {host : Host}.

Lemma run_unfold cmd w :
  _run cmd w =
  if which_ffmpeg then
    ((if (ffmpeg cmd (w_fs w)).2 then Ok () else Raise CalledProcessError),
     World (ffmpeg cmd (w_fs w)).1 (w_out w))
  else (Raise FileNotFoundError, w).
Proof.
  unfold _run. destruct which_ffmpeg; [|done].
  by destruct (ffmpeg cmd (w_fs w)) as [fs' ok].
Qed.

(** Running [ffmpeg] prints nothing. *)
Lemma run_out cmd w r w' : _run cmd w = (r, w') → w_out w' = w_out w.
Proof.
  rewrite run_unfold. destruct which_ffmpeg; by intros [= <- <-].
Qed.

Lemma concat_mp4s_unfold mp4_paths output_path lst w :
  with_suffix output_path ".txt" = Ok lst →
  concat_mp4s mp4_paths output_path w =
  match write_file (w_fs w) (resolve lst) (concat_list_text mp4_paths) with
  | Raise e => (Raise e, w)
  | Ok fs1 =>
      match _run (concat_cmd lst output_path) (World fs1 (w_out w)) with
      | (Raise e, w2) => (Raise e, w2)
      | (Ok _, w2) =>
          match unlink (w_fs w2) (resolve lst) with
          | Raise e => (Raise e, w2)
          | Ok fs3 => (Ok (), World fs3 (w_out w2))
          end
      end
  end.
Proof.
  intros Hlst. unfold concat_mp4s. rewrite Hlst.
  unfold mbind at 1, M_bind at 1, lift_res at 1. cbv beta iota.
  unfold write_text, lift_fs, mbind, M_bind, get_fs, lift_res. simpl.
  destruct (write_file _ _ _) as [fs1|e]; [|done]. simpl.
  fold (concat_cmd lst output_path).
  destruct (_run _ _) as [[[]|e] w2]; [|done].
  destruct (unlink _ _) as [fs3|e]; done.
Qed.

End concat.

(** X6. [concat_mp4s] writes its list of inputs next to the output,
    under the output's name with the suffix [.txt].  When it returns
    normally that list file is gone and nothing was printed; when
    [ffmpeg] exits with an error the exception leaves the function before
    the removal, so the file system is exactly as [ffmpeg] left it, list
    file included. *)
Theorem concat_mp4s_list_file :
  (∀ (host : Host) mp4_paths output_path lst w w',
      with_suffix output_path ".txt" = Ok lst →
      concat_mp4s mp4_paths output_path w = (Ok (), w') →
      w_fs w' !! resolve lst = None ∧ w_out w' = w_out w) ∧
  (∀ (host : Host) mp4_paths output_path lst w fs1,
      with_suffix output_path ".txt" = Ok lst →
      write_file (w_fs w) (resolve lst) (concat_list_text mp4_paths)
        = Ok fs1 →
      which_ffmpeg = true →
      (ffmpeg (concat_cmd lst output_path) fs1).2 = false →
      fs1 !! resolve lst = Some (FileE (concat_list_text mp4_paths)) ∧
      concat_mp4s mp4_paths output_path w =
      (Raise CalledProcessError,
       World (ffmpeg (concat_cmd lst output_path) fs1).1 (w_out w))).
Proof.
  split.
  - intros host mp4_paths output_path lst w w' Hlst.
    rewrite (concat_mp4s_unfold _ _ _ _ Hlst).
    destruct (write_file _ _ _) as [fs1|e]; [|done].
    destruct (_run _ _) as [[[]|e] w2] eqn:Hrun; [|done].
    apply run_out in Hrun. simpl in Hrun.
    unfold unlink.
    destruct (w_fs w2 !! resolve lst) as [[d|]|] eqn:Hl; [| done |];
      intros [= <-]; simpl; [|done].
    by rewrite lookup_delete_eq.
  - intros host mp4_paths output_path lst w fs1 Hlst Hw Hff Hfail.
    rewrite (concat_mp4s_unfold _ _ _ _ Hlst), Hw, run_unfold, Hff.
    simpl. rewrite Hfail. apply write_file_Ok in Hw as (-> & _). by rewrite lookup_insert_eq.
Qed.

Section assembly.
Context {host : Host}.

(** What [collect] returns was returned by the body, item by item. *)
Lemma collect_spec {A B} (f : A → M B) l : ∀ w ys w',
  collect l f w = (Ok ys, w') →
  Forall2 (λ x y, ∃ w1 w2, f x w1 = (Ok y, w2)) l ys.
Proof.
  induction l as [|x l IH]; intros w ys w'; simpl.
  - intros [= <- <-]. constructor.
  - unfold mbind, M_bind.
    destruct (f x w) as [[y|e] w1] eqn:Hx; [|done].
    destruct (collect l f w1) as [[ys'|e] w2] eqn:Hl; [|done].
    intros [= <- <-]. constructor; eauto.
Qed.

(** A loop that returned nothing for an empty list did nothing. *)
Lemma collect_nil_inv {A B} (f : A → M B) l w w' :
  collect l f w = (Ok [], w') → l = [] ∧ w' = w.
Proof.
  destruct l as [|x l]; simpl; [by intros [= <-]|].
  unfold mbind, M_bind.
  destruct (f x w) as [[y|e] w1]; [|done].
  destruct (collect l f w1) as [[ys'|e] w2]; done.
Qed.

Lemma build_segment_cases tmp_dir seg w r w' :
  build_segment tmp_dir seg w = (Ok r, w') →
  (r = None ∧ w' = w) ∨
  r = Some (p_child tmp_dir (p_name seg +:+ "_1fps.mp4")).
Proof.
  run_M build_segment.
  destruct (collect _ _ w) as [[mp4_list|e] w1] eqn:Hc; [|done].
  destruct mp4_list as [|m ms].
  - apply collect_nil_inv in Hc as [_ ->]. intros [= <- <-]. by left.
  - destruct (concat_mp4s _ _ w1) as [[[]|e] w2]; [|done].
    destruct (downsample_to_1fps _ _ w2) as [[[]|e] w3]; [|done].
    intros [= <- <-]. by right.
Qed.

(** When every step of the outer loop returns nothing, none has changed
    the world. *)
Lemma collect_segments_none tmp_dir segs : ∀ w rs w',
  collect segs (build_segment tmp_dir) w = (Ok rs, w') →
  omap id rs = [] → w' = w.
Proof.
  induction segs as [|seg segs IH]; intros w rs w'; simpl.
  - by intros [= <- <-].
  - unfold mbind, M_bind.
    destruct (build_segment tmp_dir seg w) as [[r|e] w1] eqn:Hs; [|done].
    destruct (collect segs _ w1) as [[rs'|e] w2] eqn:Hc; [|done].
    intros [= <- <-]. simpl.
    apply build_segment_cases in Hs as [[-> ->]| ->]; [|done].
    simpl. by apply IH.
Qed.

(** The segments the outer loop goes through lie in [raw_dir] or are
    [raw_dir] itself. *)
Lemma segment_dirs_in fs raw_dir seg :
  let dirs := filter (λ d, path_is_dir fs d = true) (scandir fs raw_dir) in
  seg ∈ sorted_paths (if dirs is [] then [raw_dir] else dirs) →
  seg = raw_dir ∨ seg ∈ scandir fs raw_dir.
Proof.
  intros dirs. rewrite sorted_paths_perm. destruct dirs as [|d ds] eqn:Hd.
  - intros ->%list_elem_of_singleton. by left.
  - rewrite <- Hd. unfold dirs. intros [_ ?]%list_elem_of_filter. by right.
Qed.

Lemma build_1fps_video_unfold raw_dir tmp_dir w :
  build_1fps_video raw_dir tmp_dir w =
  match iterdir (w_fs w) raw_dir with
  | Raise e => (Raise e, w)
  | Ok entries =>
      let dirs := filter (λ d, path_is_dir (w_fs w) d = true) entries in
      match collect (sorted_paths (if dirs is [] then [raw_dir] else dirs))
                    (build_segment tmp_dir) w with
      | (Raise e, w1) => (Raise e, w1)
      | (Ok segs, w1) =>
          match omap id segs with
          | [] => (Ok None, w1)
          | [s] => (Ok (Some s), w1)
          | ss =>
              match concat_mp4s ss (p_child tmp_dir "merged_1fps.mp4") w1 with
              | (Raise e, w2) => (Raise e, w2)
              | (Ok _, w2) =>
                  (Ok (Some (p_child tmp_dir "merged_1fps.mp4")), w2)
              end
          end
      end
  end.
Proof.
  run_M build_1fps_video. unfold lift_res.
  destruct (iterdir (w_fs w) raw_dir) as [entries|e]; [|done]. simpl.
  destruct (collect _ _ w) as [[segs|e] w1]; [|done].
  destruct (omap id segs) as [|s [|s' ss]]; done.
Qed.

End assembly.

Lemma build_none_unchanged (host : Host) raw_dir tmp_dir w w' :
  build_1fps_video raw_dir tmp_dir w = (Ok None, w') → w' = w.
Proof.
  rewrite build_1fps_video_unfold.
  destruct (iterdir (w_fs w) raw_dir) as [entries|e]; [|done]. cbv zeta.
  destruct (collect _ _ w) as [[segs|e] w1] eqn:Hc; [|done].
  destruct (omap id segs) as [|s [|s' ss]] eqn:Ho.
  - intros [= <-]. by eapply collect_segments_none.
  - done.
  - by destruct (concat_mp4s _ _ w1) as [[[]|e] w2].
Qed.

(** X7. When the assembly reports that there is no video, it has run no
    command and changed nothing: the world is the one it started in. *)
Theorem build_1fps_video_none_unchanged (host : Host) raw_dir tmp_dir w w' :
  build_1fps_video raw_dir tmp_dir w = (Ok None, w') → w' = w.
Proof. intros Hb. by eapply build_none_unchanged. Qed.

Lemma build_1fps_video_none_unchanged_witness :
  let host := Demo.toy_host (λ _ l, l) in
  let raw_dir := ["/"; "work"; "OinkTrack"; "C1D-1"; "raw_videos"] in
  let w := World Demo.deep_recording_fs [] in
  (build_1fps_video raw_dir ["/"; "tmp"] w).2 = w.
Proof.
  intros host raw_dir w.
  apply (build_1fps_video_none_unchanged host raw_dir ["/"; "tmp"] w).
  run_result.
Defined.

(** X8. A video the assembly returns is a file directly in the scratch
    directory: the merged video [merged_1fps.mp4], or, when a single
    segment has clips, that segment's [<name>_1fps.mp4], the segment
    being [raw_dir] itself or an entry of it. *)
Theorem build_1fps_video_result_in_scratch (host : Host)
    raw_dir tmp_dir w p w' :
  build_1fps_video raw_dir tmp_dir w = (Ok (Some p), w') →
  p = p_child tmp_dir "merged_1fps.mp4" ∨
  ∃ seg, (seg = raw_dir ∨ seg ∈ scandir (w_fs w) raw_dir) ∧
         p = p_child tmp_dir (p_name seg +:+ "_1fps.mp4").
Proof.
  rewrite build_1fps_video_unfold. unfold iterdir.
  destruct (w_fs w !! resolve raw_dir) as [[d|]|]; [done| |done]. cbv zeta.
  destruct (collect _ _ w) as [[segs|e] w1] eqn:Hc; [|done].
  destruct (omap id segs) as [|s [|s' ss]] eqn:Ho.
  - done.
  - intros [= <- <-]. right.
    assert (s ∈ omap id segs) as Hs by (rewrite Ho; by left).
    apply list_elem_of_omap in Hs as (r & [i Hi]%list_elem_of_lookup & Hr).
    simpl in Hr. subst r.
    apply collect_spec in Hc.
    destruct (Forall2_lookup_r _ _ _ _ _ Hc Hi) as (seg & Hseg & w2 & w3 & Hb).
    exists seg. split.
    + eapply segment_dirs_in. by eapply list_elem_of_lookup_2.
    + apply build_segment_cases in Hb as [[? _]|?]; by simplify_eq.
  - destruct (concat_mp4s _ _ w1) as [[[]|e] w2]; [|done].
    intros [= <- <-]. by left.
Qed.

Lemma build_1fps_video_result_in_scratch_witness :
  let host := Demo.toy_host (λ _ l, l) in
  let raw_dir := ["/"; "work"; "OinkTrack"; "C1D-1"; "raw_videos"] in
  let w := World Demo.one_segment_fs [] in
  let p := ["/"; "tmp"; "raw_videos_1fps.mp4"] in
  p = p_child ["/"; "tmp"] "merged_1fps.mp4" ∨
  ∃ seg, (seg = raw_dir ∨ seg ∈ scandir (w_fs w) raw_dir) ∧
         p = p_child ["/"; "tmp"] (p_name seg +:+ "_1fps.mp4").
Proof.
  intros host raw_dir w p.
  apply (build_1fps_video_result_in_scratch host raw_dir ["/"; "tmp"] w p
           (build_1fps_video raw_dir ["/"; "tmp"] w).2).
  run_result.
Defined.

(** X9. When [raw_videos/] has sub-directories, only they are searched
    for clips: if none of them holds a clip the assembly gives no video
    and changes nothing, whatever lies in [raw_videos/] itself, although
    a clip there is enough for the validation to pass. *)
Theorem build_1fps_video_ignores_direct_clips (host : Host)
    raw_dir tmp_dir w :
  path_is_dir (w_fs w) raw_dir = true →
  let dirs := filter (λ d, path_is_dir (w_fs w) d = true)
                     (scandir (w_fs w) raw_dir) in
  dirs ≠ [] →
  Forall (λ seg, glob (w_fs w) seg ".ts" = []) dirs →
  build_1fps_video raw_dir tmp_dir w = (Ok None, w) ∧
  ∀ name, is_Some (w_fs w !! (resolve raw_dir ++ [name])) →
          ends_with ".ts" name = true →
          rglob_nonempty (w_fs w) raw_dir ".ts" = true.
Proof.
  intros Hdir dirs Hne Hnone. split.
  - rewrite build_1fps_video_unfold. unfold iterdir.
    pose proof Hdir as Hdir'. unfold path_is_dir, fs_is_dir in Hdir'.
    apply bool_decide_eq_true in Hdir'. rewrite Hdir'. cbv zeta.
    fold dirs. destruct dirs as [|d ds] eqn:Hd; [done|].
    rewrite collect_none.
    + by rewrite omap_id_none.
    + intros seg Hseg. apply build_segment_empty.
      rewrite sorted_paths_perm in Hseg.
      rewrite Forall_forall in Hnone. by apply Hnone.
  - intros name Hname Hts.
    apply (rglob_any_depth _ _ [] name); [|done..].
    intros i Hi. simpl in Hi. assert (i = 0%nat) as -> by lia.
    simpl. rewrite app_nil_r.
    unfold path_is_dir, fs_is_dir in Hdir.
    by apply bool_decide_eq_true in Hdir.
Qed.

Lemma build_1fps_video_ignores_direct_clips_witness :
  let host := Demo.toy_host (λ _ l, l) in
  let raw_dir := ["/"; "work"; "OinkTrack"; "C1D-1"; "raw_videos"] in
  let w := World Demo.mixed_layout_fs [] in
  build_1fps_video raw_dir ["/"; "tmp"] w = (Ok None, w) ∧
  ∀ name, is_Some (w_fs w !! (resolve raw_dir ++ [name])) →
          ends_with ".ts" name = true →
          rglob_nonempty (w_fs w) raw_dir ".ts" = true.
Proof.
  intros host raw_dir w.
  apply (build_1fps_video_ignores_direct_clips host raw_dir ["/"; "tmp"] w).
  - vm_compute. reflexivity.
  - vm_compute. discriminate.
  - replace (filter _ _) with [p_child raw_dir "part1"]
      by (vm_compute; reflexivity).
    constructor; [vm_compute; reflexivity|constructor].
Defined.

(** *** The scratch directory *)

Lemma rmtree_lookup_below (fs : gmap path entry) td q :
  td `prefix_of` q → rmtree fs td !! q = None.
Proof.
  intros Hp. unfold rmtree. apply map_lookup_filter_None. right.
  intros x _. simpl. by intros [].
Qed.

Lemma rmtree_lookup_outside (fs : gmap path entry) td q :
  ¬ td `prefix_of` q → rmtree fs td !! q = fs !! q.
Proof.
  intros Hp. unfold rmtree.
  destruct (fs !! q) as [x|] eqn:Hq.
  - by apply map_lookup_filter_Some.
  - apply map_lookup_filter_None. by left.
Qed.

(** Creating a fresh directory and removing it again leaves the file
    system as it was. *)
Lemma rmtree_insert_fresh (fs : gmap path entry) td :
  (∀ q, td `prefix_of` q → fs !! q = None) →
  rmtree (<[td := DirE]> fs) td = fs.
Proof.
  intros Hfresh. apply map_eq. intros q.
  destruct (decide (td `prefix_of` q)) as [Hp|Hp].
  - rewrite rmtree_lookup_below by done. symmetry. by apply Hfresh.
  - rewrite rmtree_lookup_outside by done.
    apply lookup_insert_ne. by intros <-.
Qed.

Section sequence.
Context {host : Host}.

Lemma process_sequence_unfold seq_name split w :
  process_sequence seq_name split w =
  match mkdir_p (resolve (p_child (dst_seq_of seq_name split) "gt"))
                (w_fs w) with
  | Raise e => (Raise e, w)
  | Ok fs1 =>
      let td := mkdtemp fs1 in
      let clean w' := World (rmtree (w_fs w') td) (w_out w') in
      match build_1fps_video (raw_dir_of seq_name) td
              (World (<[td := DirE]> fs1) (w_out w)) with
      | (Raise e, w3) => (Raise e, clean w3)
      | (Ok None, w3) =>
          (Ok (), World (rmtree (w_fs w3) td)
                        (w_out w3 ++ [skip_message seq_name]))
      | (Ok (Some video), w3) =>
          match extract_frames video
                  (p_child (dst_seq_of seq_name split) "img1") w3 with
          | (Raise e, w4) => (Raise e, clean w4)
          | (Ok _, w4) => finish_sequence seq_name split (clean w4)
          end
      end
  end.
Proof.
  unfold process_sequence. cbv zeta.
  unfold mbind at 1, M_bind at 1.
  unfold lift_fs, mbind at 1, M_bind at 1, get_fs at 1.
  unfold mbind at 1, M_bind at 1, lift_res at 1, set_fs at 1.
  fold (dst_seq_of seq_name split).
  destruct (mkdir_p _ (w_fs w)) as [fs1|e]; [|done]. cbv beta iota.
  unfold mbind at 1, M_bind at 1, with_temp_dir. simpl w_fs. simpl w_out.
  fold (raw_dir_of seq_name).
  unfold mbind at 1, M_bind at 1.
  destruct (build_1fps_video _ _ _) as [[[video|]|e] w3]; [| |done].
  - unfold mbind at 1, M_bind at 1.
    destruct (extract_frames _ _ w3) as [[[]|e] w4]; [|done].
    reflexivity.
  - reflexivity.
Qed.

(** Each of the three last stages changes files below the output
    directory of the sequence only. *)
Lemma mask_loop_changes mask jpgs : ∀ w r w' q,
  for_each jpgs (mask_frame mask) w = (r, w') →
  (∀ jpg, jpg ∈ jpgs → q ≠ resolve jpg) →
  w_fs w' !! q = w_fs w !! q.
Proof.
  induction jpgs as [|jpg jpgs IH]; intros w r w' q; simpl.
  - by intros [= <- <-].
  - unfold mbind, M_bind.
    destruct (mask_frame mask jpg w) as [r1 w1] eqn:H1.
    apply MaskFacts.mask_frame_step in H1 as [_ Hfs].
    intros Hrest Hq.
    assert (w_fs w1 !! q = w_fs w !! q) as Hkeep.
    { destruct Hfs as [->|(img & data & _ & ->)]; [done|].
      apply lookup_insert_ne. intros E. by apply (Hq jpg); [left|]. }
    destruct r1 as [[]|e].
    + rewrite <- Hkeep. eapply IH; [done|]. intros j Hj. apply Hq. by right.
    + by simplify_eq.
Qed.

Lemma resolve_child_nonempty p n :
  p ≠ [] → resolve (p_child p n) = resolve p ++ [n].
Proof.
  intros Hp. unfold resolve, p_child, is_absolute.
  destruct p as [|a p]; [done|]. simpl.
  destruct (bool_decide (Some a = Some "/")); [done|by rewrite <- app_assoc].
Qed.

Lemma glob_child fs p suffix q :
  q ∈ glob fs p suffix → ∃ n, q = p_child p n.
Proof.
  unfold glob. destruct (path_is_dir fs p); [|by intros ?%elem_of_nil].
  intros [_ Hq]%list_elem_of_filter. unfold scandir in Hq.
  apply list_elem_of_fmap in Hq as (n & -> & _). eauto.
Qed.

Lemma apply_mask_changes img_dir mask_path w r w' q :
  img_dir ≠ [] →
  apply_mask img_dir mask_path w = (r, w') →
  ¬ resolve img_dir `prefix_of` q →
  w_fs w' !! q = w_fs w !! q.
Proof.
  intros Hne. run_M apply_mask.
  destruct (imread_gray (w_fs w) mask_path) as [mask|].
  - intros Hloop Hq. eapply mask_loop_changes; [done|].
    intros jpg Hjpg. rewrite sorted_paths_perm in Hjpg.
    apply glob_child in Hjpg as [n ->].
    rewrite resolve_child_nonempty by done.
    intros ->. apply Hq. by apply prefix_app_r.
  - by intros [= <- <-].
Qed.

Lemma write_text_changes p s w r w' q :
  write_text p s w = (r, w') → q ≠ resolve p →
  w_fs w' !! q = w_fs w !! q ∧ w_out w' = w_out w.
Proof.
  unfold write_text, lift_fs, mbind, M_bind, get_fs, lift_res. simpl.
  destruct (write_file _ _ _) as [fs'|e] eqn:Hw; simpl.
  - apply write_file_Ok in Hw as (-> & _). intros [= <- <-] Hq. simpl.
    by rewrite lookup_insert_ne.
  - by intros [= <- <-].
Qed.

Lemma write_seqinfo_changes seq_path w r w' q :
  write_seqinfo seq_path w = (r, w') →
  q ≠ resolve (p_child seq_path "seqinfo.ini") →
  w_fs w' !! q = w_fs w !! q.
Proof.
  rewrite write_seqinfo_cases. cbv zeta.
  destruct (sorted_paths _) as [|first rest]; [by intros [= <- <-]|].
  destruct (imread (w_fs w) first) as [img|]; [|by intros [= <- <-]].
  intros Hw Hq. by eapply write_text_changes.
Qed.

Lemma sup_to_mot_changes json_path txt_out w r w' q :
  sup_to_mot json_path txt_out w = (r, w') → q ≠ resolve txt_out →
  w_fs w' !! q = w_fs w !! q.
Proof.
  rewrite sup_to_mot_unfold.
  destruct (read_file _ _) as [text|e]; [|by intros [= <- <-]].
  destruct (json_loads text) as [data|e]; [|by intros [= <- <-]].
  destruct (write_file _ _ _) as [fs'|e] eqn:Hw; [|by intros [= <- <-]].
  apply write_file_Ok in Hw as (-> & _). intros [= <- <-] Hq. simpl.
  by rewrite lookup_insert_ne.
Qed.

(** The three last stages change nothing outside the output directory of
    the sequence. *)
Lemma finish_sequence_changes seq_name split w r w' q :
  finish_sequence seq_name split w = (r, w') →
  ¬ resolve (dst_seq_of seq_name split) `prefix_of` q →
  w_fs w' !! q = w_fs w !! q.
Proof.
  unfold finish_sequence. cbv zeta. set (dst := dst_seq_of seq_name split).
  assert (dst ≠ []) as Hdst by (unfold dst, dst_seq_of, p_child; by destruct (OUT_DIR ++ [split])).
  intros Hrun Hq. unfold mbind, M_bind in Hrun.
  destruct (apply_mask _ _ w) as [r1 w1] eqn:H1.
  assert (w_fs w1 !! q = w_fs w !! q) as E1.
  { eapply apply_mask_changes; [|done|].
    - unfold p_child. by destruct dst.
    - rewrite resolve_child_nonempty by done.
      intros Hp. apply Hq. by eapply prefix_app_l. }
  destruct r1 as [[]|e]; [|by simplify_eq].
  destruct (sup_to_mot _ _ w1) as [r2 w2] eqn:H2.
  assert (w_fs w2 !! q = w_fs w1 !! q) as E2.
  { eapply sup_to_mot_changes; [done|].
    rewrite !resolve_child_nonempty by (done || unfold p_child; by destruct dst).
    intros ->. apply Hq. rewrite <- app_assoc. by apply prefix_app_r. }
  destruct r2 as [[]|e]; [|simplify_eq; congruence].
  rewrite <- E1, <- E2. eapply write_seqinfo_changes; [done|].
  rewrite resolve_child_nonempty by done.
  intros ->. apply Hq. by apply prefix_app_r.
Qed.

End sequence.

(** X10. A sequence for which the assembly gives no video is skipped:
    [process_sequence] returns normally with the skip message as its only
    output, the scratch directory is removed, and all that is left is the
    [gt/] directory made beforehand; no frame, [gt.txt] or [seqinfo.ini]
    is written. *)
Theorem process_sequence_skip (host : Host) seq_name split w fs1 w3 :
  mkdir_p (resolve (p_child (dst_seq_of seq_name split) "gt")) (w_fs w)
    = Ok fs1 →
  (∀ q, mkdtemp fs1 `prefix_of` q → fs1 !! q = None) →
  build_1fps_video (raw_dir_of seq_name) (mkdtemp fs1)
    (World (<[mkdtemp fs1 := DirE]> fs1) (w_out w)) = (Ok None, w3) →
  process_sequence seq_name split w =
  (Ok (), World fs1 (w_out w ++ [skip_message seq_name])).
Proof.
  intros Hmk Hfresh Hb. rewrite process_sequence_unfold, Hmk. cbv zeta.
  rewrite Hb. apply build_none_unchanged in Hb as ->. simpl.
  by rewrite rmtree_insert_fresh.
Qed.

Lemma process_sequence_skip_witness :
  let host := Demo.toy_host (λ _ l, l) in
  let w := World Demo.deep_recording_fs [] in
  let gt := ["/"; "work"; "dataset"; "train"; "C1D-1"; "gt"] in
  let fs1 := <[gt := DirE]>
               (<[["/"; "work"; "dataset"; "train"; "C1D-1"] := DirE]>
                  (<[["/"; "work"; "dataset"; "train"] := DirE]>
                     (<[["/"; "work"; "dataset"] := DirE]>
                        Demo.deep_recording_fs))) in
  process_sequence "C1D-1" "train" w =
  (Ok (), World fs1 ["❌  C1D-1: No video produced, skipping."]).
Proof.
  intros host w gt fs1.
  apply (process_sequence_skip host "C1D-1" "train" w fs1
           (build_1fps_video (raw_dir_of "C1D-1") ["/"; "tmp"; "td"]
              (World (<[["/"; "tmp"; "td"] := DirE]> fs1) [])).2).
  - reflexivity.
  - intros q Hq. destruct (fs1 !! q) as [e|] eqn:E; [exfalso|done].
    revert q e E Hq.
    change (map_Forall (λ k _, ¬ ["/"; "tmp"; "td"] `prefix_of` k) fs1).
    apply (bool_decide_unpack _). vm_compute. exact I.
  - run_result.
Defined.

(** X11. However [process_sequence] ends, by a return, a skip or an
    exception of any stage, nothing is left at or below the scratch
    directory, provided the scratch directory and the output directory of
    the sequence do not contain one another. *)
Theorem process_sequence_removes_scratch (host : Host)
    seq_name split w fs1 r w' q :
  mkdir_p (resolve (p_child (dst_seq_of seq_name split) "gt")) (w_fs w)
    = Ok fs1 →
  ¬ mkdtemp fs1 `prefix_of` resolve (dst_seq_of seq_name split) →
  ¬ resolve (dst_seq_of seq_name split) `prefix_of` mkdtemp fs1 →
  process_sequence seq_name split w = (r, w') →
  mkdtemp fs1 `prefix_of` q →
  w_fs w' !! q = None.
Proof.
  intros Hmk Htd Hdst. rewrite process_sequence_unfold, Hmk. cbv zeta.
  destruct (build_1fps_video _ _ _) as [[[video|]|e] w3].
  - destruct (extract_frames _ _ w3) as [[[]|e] w4].
    + intros Hfin Hq.
      erewrite finish_sequence_changes; [|done|].
      * simpl. by apply rmtree_lookup_below.
      * intros Hp.
        destruct (prefix_weak_total _ _ _ Hq Hp); done.
    + intros [= <- <-] Hq. simpl. by apply rmtree_lookup_below.
  - intros [= <- <-] Hq. simpl. by apply rmtree_lookup_below.
  - intros [= <- <-] Hq. simpl. by apply rmtree_lookup_below.
Qed.

Lemma process_sequence_removes_scratch_witness :
  let host := Demo.scratch_host in
  let w' := (process_sequence "C1D-1" "train"
               (World Demo.one_segment_fs [])).2 in
  w_fs w' !! ["/"; "tmp"; "td"; "out.mp4"] = None.
Proof.
  intros host w'.
  apply (process_sequence_removes_scratch host "C1D-1" "train"
           (World Demo.one_segment_fs [])
           (<[["/"; "work"; "dataset"; "train"; "C1D-1"; "gt"] := DirE]>
              (<[["/"; "work"; "dataset"; "train"; "C1D-1"] := DirE]>
                 (<[["/"; "work"; "dataset"; "train"] := DirE]>
                    (<[["/"; "work"; "dataset"] := DirE]>
                       Demo.one_segment_fs))))
           (Ok ()) w').
  - reflexivity.
  - apply (bool_decide_unpack _). vm_compute. exact I.
  - apply (bool_decide_unpack _). vm_compute. exact I.
  - run_result.
  - apply (bool_decide_unpack _). vm_compute. exact I.
Defined.

(** On that host the file is there while the scratch directory is in use:
    the assembly ends with it in place, and so does the extraction of the
    frames, the last step before the directory is removed. *)
Example scratch_file_in_use :
  let host := Demo.scratch_host in
  let td := ["/"; "tmp"; "td"] in
  let raw_dir := ["/"; "work"; "OinkTrack"; "C1D-1"; "raw_videos"] in
  let img1 := ["dataset"; "train"; "C1D-1"; "img1"] in
  let w1 := World (<[td := DirE]> Demo.one_segment_fs) [] in
  let w2 := (build_1fps_video raw_dir td w1).2 in
  let w3 := (extract_frames (td ++ ["raw_videos_1fps.mp4"]) img1 w2).2 in
  (build_1fps_video raw_dir td w1).1
    = Ok (Some (td ++ ["raw_videos_1fps.mp4"])) ∧
  w_fs w2 !! (td ++ ["out.mp4"]) = Some (FileE "v") ∧
  w_fs w3 !! (td ++ ["out.mp4"]) = Some (FileE "v").
Proof. repeat split; vm_compute; reflexivity. Qed.

(** *** The whole run and the order of directory listings *)

Lemma for_each_ext {A} (f g : A → M unit) l :
  (∀ x w, f x w = g x w) → ∀ w, for_each l f w = for_each l g w.
Proof.
  intros Hfg. induction l as [|x l IH]; intros w; simpl; [done|].
  unfold mbind, M_bind. rewrite Hfg.
  destruct (g x w) as [[[]|e] w1]; [|done]. apply IH.
Qed.

Section listing.
Context (host : Host) (order' : path → list string → list string).
Context (Hperm : ∀ p l, scandir_order p l ≡ₚ l).
Context (Hperm' : ∀ p l, order' p l ≡ₚ l).

Lemma apply_mask_with_order img_dir mask_path w :
  apply_mask (host := with_order host order') img_dir mask_path w =
  apply_mask img_dir mask_path w.
Proof.
  unfold apply_mask, mbind, M_bind, get_fs. simpl.
  change (imread_gray (host := with_order host order') (w_fs w) mask_path)
    with (imread_gray (w_fs w) mask_path).
  destruct (imread_gray (w_fs w) mask_path) as [mask|]; [|done].
  by rewrite glob_with_order.
Qed.

Lemma write_seqinfo_with_order seq_path w :
  write_seqinfo (host := with_order host order') seq_path w =
  write_seqinfo seq_path w.
Proof.
  unfold write_seqinfo, mbind, M_bind, get_fs. simpl.
  by rewrite glob_with_order.
Qed.

Lemma finish_sequence_with_order seq_name split w :
  finish_sequence (host := with_order host order') seq_name split w =
  finish_sequence seq_name split w.
Proof.
  unfold finish_sequence. cbv zeta. unfold mbind, M_bind.
  rewrite apply_mask_with_order.
  change (mask_file_of (host := with_order host order') seq_name)
    with (mask_file_of seq_name).
  destruct (apply_mask _ _ w) as [[[]|e] w1]; [|done].
  change (sup_to_mot (host := with_order host order'))
    with (sup_to_mot (host := host)).
  change (ROOT (host := with_order host order')) with ROOT.
  destruct (sup_to_mot _ _ w1) as [[[]|e] w2]; [|done].
  apply write_seqinfo_with_order.
Qed.

Lemma process_sequence_with_order seq_name split w :
  process_sequence (host := with_order host order') seq_name split w =
  process_sequence seq_name split w.
Proof.
  rewrite !process_sequence_unfold.
  change (resolve (host := with_order host order')) with resolve.
  destruct (mkdir_p _ (w_fs w)) as [fs1|e]; [|done]. cbv zeta.
  change (mkdtemp (Host := with_order host order') fs1) with (mkdtemp fs1).
  change (raw_dir_of (host := with_order host order') seq_name)
    with (raw_dir_of seq_name).
  rewrite build_1fps_video_with_order by done.
  destruct (build_1fps_video _ _ _) as [[[video|]|e] w3]; [|done..].
  change (extract_frames (host := with_order host order'))
    with (extract_frames (host := host)).
  destruct (extract_frames _ _ w3) as [[[]|e] w4]; [|done].
  apply finish_sequence_with_order.
Qed.

Lemma convert_all_with_order w :
  convert_all (host := with_order host order') w = convert_all w.
Proof.
  unfold convert_all. unfold mbind at 1 5, M_bind at 1 5.
  change (resolve (host := with_order host order') OUT_DIR)
    with (resolve OUT_DIR).
  destruct (lift_fs _ w) as [[[]|e] w1]; [|done].
  unfold mbind at 1 4, M_bind at 1 4.
  rewrite (for_each_ext _ (λ '(sp, sequences),
             for_each sequences (λ seq,
               print ("▶ Converting " +:+ seq +:+ "  →  " +:+ sp);;
               process_sequence seq sp))).
  - destruct (for_each _ _ w1) as [[[]|e] w2]; done.
  - intros [sp sequences] w0. apply for_each_ext. intros seq w0'.
    unfold mbind, M_bind. destruct (print _ w0') as [[[]|e] w0'']; [|done].
    apply process_sequence_with_order.
Qed.

Lemma main_with_order w :
  main (host := with_order host order') w = main w.
Proof.
  unfold main.
  change (which_ffmpeg (Host := with_order host order')) with which_ffmpeg.
  destruct (negb which_ffmpeg); [done|].
  unfold mbind at 1 4, M_bind at 1 4.
  change (sanity_check (host := with_order host order') w)
    with (sanity_check w).
  destruct (sanity_check w) as [[problems|e] w1]; [|done].
  destruct problems as [|p ps]; [|done].
  apply convert_all_with_order.
Qed.

End listing.

(** X12. The whole run is independent of the order in which the
    operating system lists directories: masking, the descriptor, the
    processing of a sequence and [main] end with the same result and the
    same world under any two listing orders. *)
Theorem run_order_independent (host : Host)
    (order' : path → list string → list string) :
  (∀ p l, scandir_order p l ≡ₚ l) →
  (∀ p l, order' p l ≡ₚ l) →
  ∀ w,
    main (host := with_order host order') w = main w ∧
    (∀ seq_name split,
        process_sequence (host := with_order host order') seq_name split w =
        process_sequence seq_name split w) ∧
    (∀ img_dir mask_path,
        apply_mask (host := with_order host order') img_dir mask_path w =
        apply_mask img_dir mask_path w) ∧
    (∀ seq_path,
        write_seqinfo (host := with_order host order') seq_path w =
        write_seqinfo seq_path w).
Proof.
  intros Hperm Hperm' w. split; [|split; [|split]]; intros.
  - by apply main_with_order.
  - by apply process_sequence_with_order.
  - by apply apply_mask_with_order.
  - by apply write_seqinfo_with_order.
Qed.

Lemma run_order_independent_witness :
  let host := Demo.toy_host (λ _ l, l) in
  let host' := with_order host (λ _ l, reverse l) in
  let w := World Demo.one_segment_fs [] in
  main (host := host') w = main (host := host) w ∧
  (∀ seq_name split,
      process_sequence (host := host') seq_name split w =
      process_sequence (host := host) seq_name split w) ∧
  (∀ img_dir mask_path,
      apply_mask (host := host') img_dir mask_path w =
      apply_mask (host := host) img_dir mask_path w) ∧
  (∀ seq_path,
      write_seqinfo (host := host') seq_path w =
      write_seqinfo (host := host) seq_path w).
Proof.
  intros host host' w.
  refine (run_order_independent host (λ _ l, reverse l) _ _ w).
  - intros p l. reflexivity.
  - intros p l. apply reverse_Permutation.
Defined.

(** *** The manifests *)

Lemma bind_M_Ok {A B} (m : M A) (k : A → M B) w b w' :
  (m ≫= k) w = (Ok b, w') → ∃ a w1, m w = (Ok a, w1) ∧ k a w1 = (Ok b, w').
Proof.
  unfold mbind, M_bind. destruct (m w) as [[a|e] w1]; [eauto|done].
Qed.

Section manifests.
Context {host : Host}.

Lemma write_text_Ok_inv p s w w' :
  write_text p s w = (Ok (), w') →
  w' = World (<[resolve p := FileE s]> (w_fs w)) (w_out w).
Proof.
  unfold write_text, lift_fs, mbind, M_bind, get_fs, lift_res. simpl.
  destruct (write_file _ _ _) as [fs'|e] eqn:Hw; simpl; [|done].
  apply write_file_Ok in Hw as (-> & _). by intros [= <-].
Qed.

Lemma seqmap_key sp :
  resolve (p_child OUT_DIR (sp +:+ "_seqmap.txt")) =
  cwd ++ ["dataset"; sp +:+ "_seqmap.txt"].
Proof. reflexivity. Qed.

End manifests.

(** X13. When the conversion runs to its end, every split has its
    manifest, holding the names of all the sequences configured for the
    split, one per line and without a final newline: a sequence that was
    skipped for lack of video is listed like the others. *)
Theorem seqmaps_list_configured_sequences (host : Host) w w' :
  convert_all w = (Ok (), w') →
  ∀ sp sequences, (sp, sequences) ∈ SPLIT →
    w_fs w' !! resolve (p_child OUT_DIR (sp +:+ "_seqmap.txt")) =
    Some (FileE (String.concat (String "010" "") sequences)).
Proof.
  unfold convert_all. intros Hrun.
  apply bind_M_Ok in Hrun as ([] & w1 & _ & Hrun).
  apply bind_M_Ok in Hrun as ([] & w2 & _ & Hrun).
  apply bind_M_Ok in Hrun as ([] & w3 & Hmaps & Hprint).
  injection Hprint as <-. simpl w_fs.
  unfold SPLIT in Hmaps. simpl in Hmaps.
  apply bind_M_Ok in Hmaps as ([] & wa & ->%write_text_Ok_inv & Hmaps).
  apply bind_M_Ok in Hmaps as ([] & wb & ->%write_text_Ok_inv & Hmaps).
  apply bind_M_Ok in Hmaps as ([] & wc & ->%write_text_Ok_inv & Hmaps).
  injection Hmaps as <-. simpl w_fs.
  intros sp sequences Hin. rewrite !seqmap_key.
  unfold SPLIT in Hin.
  repeat (apply elem_of_cons in Hin as [Hin|Hin]);
    try (by apply elem_of_nil in Hin); injection Hin as -> ->.
  - rewrite !lookup_insert_ne by (intros ?%app_inv_head; done).
    by rewrite lookup_insert_eq.
  - rewrite lookup_insert_ne by (intros ?%app_inv_head; done).
    by rewrite lookup_insert_eq.
  - by rewrite lookup_insert_eq.
Qed.

Lemma seqmaps_list_configured_sequences_witness :
  let host := Demo.toy_host (λ _ l, l) in
  let w' := (convert_all (World Demo.empty_recordings_fs [])).2 in
  w_fs w' !! resolve (p_child OUT_DIR ("val" +:+ "_seqmap.txt")) =
  Some (FileE (String.concat (String "010" "") ["C1ND-1"; "C2N-3"])).
Proof.
  intros host w'.
  apply (seqmaps_list_configured_sequences host
           (World Demo.empty_recordings_fs []) w').
  - run_result.
  - unfold SPLIT. right. left.
Defined.

(** *** What masking touches *)

Section masking.
Context {host : Host}.

Lemma glob_child_name fs p q :
  q ∈ glob fs p ".jpg" → ∃ n, q = p_child p n ∧ ends_with ".jpg" n = true.
Proof.
  unfold glob. destruct (path_is_dir fs p); [|by intros ?%elem_of_nil].
  intros [Hn Hq]%list_elem_of_filter. unfold scandir in Hq.
  apply list_elem_of_fmap in Hq as (n & -> & _). exists n. split; [done|].
  by rewrite p_name_child_ends in Hn.
Qed.

End masking.

(** X14. [apply_mask] changes nothing but frame files: an entry that is
    not an entry of the frame directory with a name ending in [.jpg]
    holds after the call what it held before, however the call ends. *)
Theorem apply_mask_changes_only_frames (host : Host)
    img_dir mask_path w r w' q :
  apply_mask img_dir mask_path w = (r, w') →
  (∀ n, ends_with ".jpg" n = true → q ≠ resolve img_dir ++ [n]) →
  w_fs w' !! q = w_fs w !! q.
Proof.
  run_M apply_mask.
  destruct (imread_gray (w_fs w) mask_path) as [mask|];
    [|by intros [= <- <-]].
  intros Hloop Hq. eapply mask_loop_changes; [done|].
  intros jpg Hjpg. rewrite sorted_paths_perm in Hjpg.
  apply glob_child_name in Hjpg as (n & -> & Hn).
  rewrite resolve_child by (by intros ->). by apply Hq.
Qed.

Lemma apply_mask_changes_only_frames_witness :
  let host := Demo.toy_host (λ _ l, l) in
  let img1 := ["dataset"; "train"; "C1D-1"; "img1"] in
  let mask_file := p_child MASK_DIR "C1_mask.png" in
  let w := World Demo.masking_fs [] in
  w_fs (apply_mask img1 mask_file w).2 !! mask_file = w_fs w !! mask_file.
Proof.
  intros host img1 mask_file w.
  apply (apply_mask_changes_only_frames host img1 mask_file w (Ok ())).
  - run_result.
  - intros n _ E. vm_compute in E. discriminate E.
Defined.

End StageFacts.

(** ** Pixels under the mask *)

Module ArrayFacts.
Import Py Img MaskFacts.

(** Elementwise broadcasting of lists of equal length, read at one
    position. *)
Lemma broadcast_lookup {A B C} (f : A → B → res C) xs ys zs i x y :
  broadcast f xs ys = Ok zs → length xs = length ys →
  xs !! i = Some x → ys !! i = Some y →
  ∃ z, zs !! i = Some z ∧ f x y = Ok z.
Proof.
  unfold broadcast. intros Hb Hlen Hx Hy.
  rewrite decide_True in Hb by done. apply mapM_res_Ok in Hb.
  assert (zip xs ys !! i = Some (x, y)) as Hxy
    by (by apply lookup_zip_with_Some; eauto).
  destruct (Forall2_lookup_l _ _ _ _ _ Hb Hxy) as (z & Hz & Hf). eauto.
Qed.

(** X15. For a frame and a mask of the same shape, the product
    [img * m[..., None]] has at every position a pixel with as many
    channels as before: all of them zero where the mask value is 0, and
    the pixel of the frame itself where the mask value is 1. *)
Theorem mul_mask_pixel img m img' y x irow mrow px mv :
  mul_mask img m = Ok img' →
  length img = length m →
  img !! y = Some irow → m !! y = Some mrow →
  length irow = length mrow →
  irow !! x = Some px → mrow !! x = Some mv →
  ∃ orow px',
    img' !! y = Some orow ∧ orow !! x = Some px' ∧
    length px' = length px ∧
    (mv = 0 → Forall (λ c, c = 0) px') ∧
    (mv = 1 → Forall (λ c, 0 ≤ c < 256) px → px' = px).
Proof.
  intros Hmul Hlen Hi Hm Hrow Hpx Hmv. unfold mul_mask in Hmul.
  destruct (broadcast_lookup _ _ _ _ _ _ _ Hmul Hlen Hi Hm)
    as (orow & Ho & Hrowmul).
  destruct (broadcast_lookup _ _ _ _ _ _ _ Hrowmul Hrow Hpx Hmv)
    as (px' & Hpx' & [= <-]).
  exists orow, (map (λ c, u8_mul c mv) px). repeat split; try done.
  - by rewrite length_map.
  - intros ->. apply Forall_fmap, Forall_true. intros c. simpl.
    unfold u8_mul. by rewrite Z.mul_0_r.
  - intros -> Hrange. rewrite <- (list_fmap_id px) at 2.
    apply Forall_fmap_ext_1. eapply Forall_impl; [done|].
    intros c Hc. simpl. unfold u8_mul. rewrite Z.mul_1_r.
    by apply Z.mod_small.
Qed.

Lemma mul_mask_pixel_witness :
  let img := [[[10; 20; 30]; [40; 50; 60]]] in
  let m := [[0; 1]] in
  ∃ orow px',
    [[[0; 0; 0]; [40; 50; 60]]] !! 0%nat = Some orow ∧
    orow !! 1%nat = Some px' ∧
    length px' = length [40; 50; 60] ∧
    (1 = 0 → Forall (λ c, c = 0) px') ∧
    (1 = 1 → Forall (λ c, 0 ≤ c < 256) [40; 50; 60] → px' = [40; 50; 60]).
Proof.
  intros img m.
  apply (mul_mask_pixel img m [[[0; 0; 0]; [40; 50; 60]]] 0 1
           [[10; 20; 30]; [40; 50; 60]] [0; 1] [40; 50; 60] 1);
    reflexivity.
Defined.

End ArrayFacts.

(** ** Edge cases of the validation *)

Module ValidationFacts.
Import Py Fs Script ScriptFacts.

(** Nothing is found below a path that is not a directory. *)
Lemma rglob_any_not_dir (fs : gmap path entry) suffix k :
  fs !! k ≠ Some DirE → rglob_any fs suffix k = false.
Proof.
  intros Hk. unfold rglob_any.
  destruct (existsb _ _) eqn:He; [|done].
  apply existsb_exists in He as (q & _ & Hq). unfold below_matching in Hq.
  destruct (strip_prefix k q) as [[|n rest]|]; try done.
  apply andb_true_iff in Hq as [_ Hall].
  rewrite forallb_forall in Hall.
  assert (fs_is_dir fs (k ++ take 0 (n :: rest)) = true) as H0
    by (apply Hall, in_seq; simpl; lia).
  simpl in H0. rewrite app_nil_r in H0.
  by apply bool_decide_eq_true in H0.
Qed.

(** X16. A [raw_videos] that exists but is not a directory is reported
    as holding no clips, not as missing; the only other line the
    sequence can get is the one for a missing annotation. *)
Theorem check_sequence_raw_videos_not_a_directory (host : Host) fs seq :
  let seq_dir := p_child ROOT seq in
  let raw_dir := p_child seq_dir "raw_videos" in
  path_exists fs seq_dir = true →
  path_exists fs raw_dir = true →
  path_is_dir fs raw_dir = false →
  check_sequence fs seq =
  (seq +:+ ": no .ts clips found in raw_videos/") ::
  (if path_exists fs (p_child seq_dir "annotation.json") then []
   else [seq +:+ ": missing annotation.json"]).
Proof.
  intros seq_dir raw_dir Hseq Hraw Hdir.
  unfold check_sequence. fold seq_dir. fold raw_dir.
  rewrite Hseq, Hraw. simpl.
  unfold rglob_nonempty. rewrite rglob_any_not_dir.
  - simpl. by destruct (path_exists fs (p_child seq_dir "annotation.json")).
  - unfold path_is_dir, fs_is_dir in Hdir.
    by apply bool_decide_eq_false in Hdir.
Qed.

Lemma check_sequence_raw_videos_not_a_directory_witness :
  let host := Demo.toy_host (λ _ l, l) in
  let fs := <[["/"; "work"; "OinkTrack"; "C1D-1"; "raw_videos"] :=
                FileE "not a directory"]> Demo.one_segment_fs in
  check_sequence fs "C1D-1" =
  ["C1D-1" +:+ ": no .ts clips found in raw_videos/"].
Proof.
  intros host fs.
  apply (check_sequence_raw_videos_not_a_directory host fs "C1D-1");
    vm_compute; reflexivity.
Defined.

End ValidationFacts.
